(** * discord-transcribe: the persistent job queue, its worker and the result cache

    A shallow embedding of [src/client/database.py], [src/cogs/transcribe.py],
    [src/utils/transcriber.py] and the parts of [src/main.py] and
    [src/utils/embed.py] they rely on.

    - The two SQLite tables are lists of rows, in rowid order, together with
      the [sqlite_sequence] counter that [AUTOINCREMENT] maintains.  Every
      method of [Database] opens its own connection and commits before it
      returns, so each statement it executes is one atomic store operation
      and no transaction spans two methods.
    - Python integers are [Z]; the 64-bit limit of an SQLite rowid is not
      modelled (an insert past it fails, it never reuses an id).  The
      duration of an attachment, a float, is a rational number.
    - A coroutine is a [Task]: a finite tree of atomic operations separated by
      the points where the coroutine awaits, so that two coroutines can be run
      one after the other or interleaved.
    - The worker's [Database.get] loop never terminates; it is a step function
      on a program counter.
    - The Discord client, the audio pipeline and the clock are collaborators:
      their answers are inputs of the model. *)

From Stdlib Require Import ZArith List Ascii String Bool Lia QArith Sorted Permutation.
Import ListNotations.
Open Scope Z_scope.

Set Implicit Arguments.

(** ** Python values that are tested for truth *)

Module Py.

(** [bool(n)] for an integer. *)
Definition bool_of_int (n : Z) : bool := negb (n =? 0).

(** [bool(s)] for an optional string: [None] and [""] are false. *)
Definition bool_of_optstr (s : option string) : bool :=
  match s with
  | Some EmptyString => false
  | Some _ => true
  | None => false
  end.

(** [a or b] on optional strings. *)
Definition or_optstr (a b : option string) : option string :=
  if bool_of_optstr a then a else b.

End Py.

(** ** SQLite tables with an [INTEGER PRIMARY KEY AUTOINCREMENT] column *)

Class HasRowid (R : Type) := rowid : R -> Z.

Record Table (R : Type) := mkTable {
  rows : list R;        (* the rows, in the order they were inserted *)
  seq : Z               (* sqlite_sequence: the largest rowid ever handed out *)
}.

Section Sql.
Context {R : Type} `{HasRowid R}.

Definition empty_table : Table R := mkTable [] 0.

Definition max_rowid (l : list R) : Z :=
  fold_right (fun r m => Z.max (rowid r) m) 0 l.

(** AUTOINCREMENT: one more than the largest rowid that ever existed. *)
Definition next_rowid (t : Table R) : Z :=
  Z.max (seq t) (max_rowid (rows t)) + 1.

(** [INSERT INTO t (...) VALUES (...)]; [mk] builds the row from its id.
    Returns [cursor.lastrowid] with the new table. *)
Definition insert (mk : Z -> R) (t : Table R) : Z * Table R :=
  let i := next_rowid t in (i, mkTable (rows t ++ [mk i]) i).

(** [SELECT COUNT( * ) FROM t WHERE p]. *)
Definition count_where (p : R -> bool) (t : Table R) : Z :=
  Z.of_nat (List.length (filter p (rows t))).

(** [SELECT * FROM t WHERE p] followed by [fetchone()]: the first match of
    the scan, which goes through the table in rowid order. *)
Definition select_one_where (p : R -> bool) (t : Table R) : option R :=
  hd_error (filter p (rows t)).

(** [DELETE FROM t WHERE p]. *)
Definition delete_where (p : R -> bool) (t : Table R) : Table R :=
  mkTable (filter (fun r => negb (p r)) (rows t)) (seq t).

Definition older (r : R) (acc : option R) : option R :=
  match acc with
  | None => Some r
  | Some m => if rowid r <=? rowid m then Some r else Some m
  end.

(** [SELECT * FROM t ORDER BY id ASC LIMIT 1] followed by [fetchone()]. *)
Definition select_first_by_id (t : Table R) : option R :=
  fold_right older None (rows t).

(** The primary key: the rows are kept in ascending rowid order (the order
    of the table's b-tree), so no two rows share an id. *)
Definition table_wf (t : Table R) : Prop :=
  StronglySorted Z.lt (map rowid (rows t)).

End Sql.

(** ** The rows of the two tables *)

Module Job.
Record t := mk {
  id : Z;
  user_id : Z;
  message_id : Z;
  channel_id : Z;
  locale : string
}.
End Job.

Module Transcription.
Record t := mk {
  id : Z;
  message_id : Z;
  channel_id : Z;
  text : string;
  created_at : Z
}.
End Transcription.

#[export] Instance Job_rowid : HasRowid Job.t := Job.id.
#[export] Instance Transcription_rowid : HasRowid Transcription.t := Transcription.id.

(** ** [class Database] *)

Record Database := mkDatabase {
  queue : Table Job.t;
  transcriptions : Table Transcription.t;
  task_available : bool            (* the asyncio.Event of [__init__] *)
}.

Definition with_queue (q : Table Job.t) (db : Database) : Database :=
  mkDatabase q (transcriptions db) (task_available db).

Definition with_transcriptions (r : Table Transcription.t) (db : Database) : Database :=
  mkDatabase (queue db) r (task_available db).

Definition with_task_available (b : bool) (db : Database) : Database :=
  mkDatabase (queue db) (transcriptions db) b.

(** [Database(path)] followed by [initialize()] on the persisted tables: the
    event starts cleared and is set when the queue table has rows. *)
Definition initialize (q : Table Job.t) (r : Table Transcription.t) : Database :=
  mkDatabase q r (0 <? count_where (fun _ => true) q).

Definition user_in_queue (user_id : Z) (db : Database) : bool :=
  Py.bool_of_int (count_where (fun j => Job.user_id j =? user_id) (queue db)).

Definition message_in_queue (message_id : Z) (db : Database) : bool :=
  Py.bool_of_int (count_where (fun j => Job.message_id j =? message_id) (queue db)).

(** The [INSERT] and [commit()] of [add_to_queue]. *)
Definition insert_job (user_id message_id channel_id : Z) (locale : string)
    (db : Database) : Database :=
  with_queue
    (snd (insert (fun i => Job.mk i user_id message_id channel_id locale) (queue db)))
    db.

(** [task_available.set()] and [task_available.clear()]. *)
Definition set_event (db : Database) : Database := with_task_available true db.
Definition clear_event (db : Database) : Database := with_task_available false db.

Definition add_to_queue (user_id message_id channel_id : Z) (locale : string)
    (db : Database) : Database :=
  set_event (insert_job user_id message_id channel_id locale db).

Definition get_queue_size (db : Database) : Z :=
  count_where (fun _ => true) (queue db).

(** [add_transcription]: the timestamp is read from the clock, [now]. *)
Definition add_transcription (message_id channel_id : Z) (text : string) (now : Z)
    (db : Database) : (Z * Z) * Database :=
  let '(uid, r) :=
    insert (fun i => Transcription.mk i message_id channel_id text now)
           (transcriptions db) in
  ((uid, now), with_transcriptions r db).

Definition get_transcription (message_id channel_id : Z) (db : Database)
    : option Transcription.t :=
  select_one_where
    (fun r => (Transcription.message_id r =? message_id)
              && (Transcription.channel_id r =? channel_id))
    (transcriptions db).

(** [delete_outdated(days)], run when the clock reads [now]. *)
Definition delete_outdated (now : Z) (days : Z) (db : Database) : Database :=
  with_transcriptions
    (delete_where (fun r => Transcription.created_at r <? now - days * 86400)
                  (transcriptions db))
    db.

(** The default of the [days] parameter. *)
Definition delete_outdated_default_days : Z := 7.

(** *** [Database.get]: the dequeue loop

    One iteration of [while True] selects the oldest row; with a row it
    deletes it and returns, without one it waits for the event and clears it.
    The program counter names the places where the coroutine can be suspended
    while other coroutines run. *)

Inductive GetPc :=
| AtSelect                  (* top of the loop, before the SELECT *)
| AtDelete (j : Job.t)      (* a row was fetched; DELETE and commit are next *)
| AtWait                    (* nothing was fetched; about to call wait() *)
| Suspended                 (* inside wait(): parked until the event is set *)
| Returned (j : Job.t).     (* return dict(message) *)

(** One step of the loop; [None] when the coroutine cannot move: it has
    returned, or it is parked on a cleared event.  [wait()] on an event that
    is set returns without suspending, and [clear()] follows it directly. *)
Definition get_step (pc : GetPc) (db : Database) : option (GetPc * Database) :=
  match pc with
  | AtSelect =>
      match select_first_by_id (queue db) with
      | Some j => Some (AtDelete j, db)
      | None => Some (AtWait, db)
      end
  | AtDelete j =>
      Some (Returned j,
            with_queue (delete_where (fun r => Job.id r =? Job.id j) (queue db)) db)
  | AtWait =>
      if task_available db then Some (AtSelect, clear_event db)
      else Some (Suspended, db)
  | Suspended =>
      if task_available db then Some (AtSelect, clear_event db)
      else None
  | Returned _ => None
  end.

(** The loop run on its own, with nothing else scheduled in between. *)
Fixpoint get_loop (fuel : nat) (pc : GetPc) (db : Database) : GetPc * Database :=
  match fuel with
  | O => (pc, db)
  | S fuel' =>
      match get_step pc db with
      | Some (pc', db') => get_loop fuel' pc' db'
      | None => (pc, db)
      end
  end.

Definition get (fuel : nat) (db : Database) : GetPc * Database :=
  get_loop fuel AtSelect db.

(** ** The Discord objects the code reads *)

Module Discord.

Record Attachment := mkAttachment {
  duration_secs : option Q      (* a float for voice messages, else None *)
}.

Record Message := mkMessage {
  id : Z;
  channel_id : Z;               (* message.channel.id *)
  attachments : list Attachment;
  flags_value : Z               (* message.flags.value *)
}.

Record Context := mkContext {
  author_id : Z;                (* ctx.author.id *)
  locale : option string;
  guild_locale : option string
}.

End Discord.

(** [src/utils/embed.py]: what an embed is built from. *)
Inductive Embed :=
| ErrorEmbed (identifier : string)
| QueueEmbed (identifier : string) (position : option Z)
| TranscribedEmbed (original : Z) (body : option string) (uid : Z) (timestamp : Z).

Definition make_error_embed (identifier : string) : Embed := ErrorEmbed identifier.

Definition make_queue_embed (identifier : string) (position : option Z) : Embed :=
  QueueEmbed identifier position.

(** An empty transcription selects the "no-transcription" description. *)
Definition make_transcribed_embed (original : Discord.Message) (transcribed : string)
    (uid created_at : Z) : Embed :=
  TranscribedEmbed (Discord.id original)
    (match transcribed with EmptyString => None | _ => Some transcribed end)
    uid created_at.

(** ** [class Bot] and the coroutines that share it *)

Record Bot := mkBot {
  is_owner : Z -> bool;     (* client.is_owner, decided by the configured owners *)
  database : Database;
  queue_size : Z            (* transcriber.queue_size, the in-memory counter *)
}.

Definition with_database (db : Database) (b : Bot) : Bot :=
  mkBot (is_owner b) db (queue_size b).

Definition with_queue_size (n : Z) (b : Bot) : Bot :=
  mkBot (is_owner b) (database b) n.

(** [Bot.on_start]: the event and the counter are recomputed from the
    persisted queue. *)
Definition on_start (owners : Z -> bool) (q : Table Job.t) (r : Table Transcription.t)
    : Bot :=
  let db := initialize q r in mkBot owners db (get_queue_size db).

(** [Bot.delete_outdated], the loop declared with [tasks.loop(hours=3)]. *)
Definition delete_outdated_loop_hours : Z := 3.

Definition bot_delete_outdated (now : Z) (b : Bot) : Bot :=
  with_database (delete_outdated now delete_outdated_default_days (database b)) b.

(** A coroutine: atomic operations on the shared [Bot], each followed by a
    point where the event loop may run another coroutine. *)
Inductive Task (A : Type) : Type :=
| Done (a : A)
| Await (X : Type) (op : Bot -> X * Bot) (k : X -> Task A).

Arguments Done {A} a.
Arguments Await {A X} op k.

Fixpoint bind {A B : Type} (t : Task A) (f : A -> Task B) : Task B :=
  match t with
  | Done a => f a
  | Await op k => Await op (fun x => bind (k x) f)
  end.

Declare Scope task_scope.
Delimit Scope task_scope with task.
Notation "x <- t ;; u" := (bind t (fun x => u))
  (at level 61, t at next level, right associativity) : task_scope.
Notation "t ;; u" := (bind t (fun _ => u))
  (at level 61, right associativity) : task_scope.

(** The coroutine run to completion with nothing scheduled in between. *)
Fixpoint run {A : Type} (t : Task A) (b : Bot) : A * Bot :=
  match t with
  | Done a => (a, b)
  | Await op k => let '(x, b') := op b in run (k x) b'
  end.

(** One scheduling slot: the coroutine performs its next atomic operation. *)
Definition resume {A : Type} (t : Task A) (b : Bot) : Task A * Bot :=
  match t with
  | Done a => (Done a, b)
  | Await op k => let '(x, b') := op b in (k x, b')
  end.

Definition db_read {X : Type} (f : Database -> X) : Task X :=
  Await (fun b => (f (database b), b)) Done.

Definition db_write (f : Database -> Database) : Task unit :=
  Await (fun b => (tt, with_database (f (database b)) b)) Done.

Definition bot_read {X : Type} (f : Bot -> X) : Task X :=
  Await (fun b => (f b, b)) Done.

Definition bot_write (f : Bot -> Bot) : Task unit :=
  Await (fun b => (tt, f b)) Done.

(** [Database.add_to_queue] as a coroutine: the row is committed, and the
    event is set when the coroutine is resumed after the commit. *)
Definition add_to_queue_task (user_id message_id channel_id : Z) (locale : string)
    : Task unit :=
  (db_write (insert_job user_id message_id channel_id locale) ;;
   db_write set_event)%task.

(** ** [class Transcribe] *)

Inductive PyVal :=
| PyList (l : list Discord.Attachment)
| PyInt (n : Z).

Definition truthy (v : PyVal) : bool :=
  match v with
  | PyList [] => false
  | PyList _ => true
  | PyInt n => Py.bool_of_int n
  end.

(** [a and b] evaluates to [a] when [a] is false, else to [b]. *)
Definition py_and (a b : PyVal) : PyVal := if truthy a then b else a.

Definition has_voice_note (message : Discord.Message) : PyVal :=
  py_and (PyList (Discord.attachments message))
         (PyInt (Z.shiftr (Discord.flags_value message) 13)).

(** What the command did: the embed passed to [ctx.respond] and whether
    [reset_cooldown] was called, or the exception that escaped. *)
Inductive Outcome :=
| Responded (embed : Embed) (cooldown_reset : bool)
| Raised (exn : string).

(** [ctx.locale or ctx.guild_locale or "en-US"]. *)
Definition locale_of (ctx : Discord.Context) : string :=
  match Py.or_optstr (Py.or_optstr (Discord.locale ctx) (Discord.guild_locale ctx))
                     (Some "en-US"%string) with
  | Some s => s
  | None => "en-US"%string
  end.

(** [duration_secs > 60]. *)
Definition longer_than_60 (d : Q) : bool := negb (Qle_bool d (60 # 1)).

Definition transcribe (ctx : Discord.Context) (message : Discord.Message)
    : Task Outcome :=
  (if negb (truthy (has_voice_note message)) then
     Done (Responded (make_error_embed "transcribe.no-voice-note") true)
   else
     owner <- bot_read (fun b => is_owner b (Discord.author_id ctx)) ;;
     queued <- (if negb owner
                then db_read (user_in_queue (Discord.author_id ctx))
                else Done false) ;;
     if queued then
       Done (Responded (make_error_embed "transcribe.user-in-queue") true)
     else
       pending <- db_read (message_in_queue (Discord.id message)) ;;
       if pending then
         Done (Responded (make_error_embed "transcribe.message-in-queue") true)
       else
         match Discord.attachments message with
         | [] => Done (Raised "IndexError")
         | a :: _ =>
             match Discord.duration_secs a with
             | None => Done (Raised "TypeError")
             | Some d =>
                 if longer_than_60 d then
                   Done (Responded (make_error_embed "transcribe.too-long") true)
                 else
                   data <- db_read (get_transcription (Discord.id message)
                                                      (Discord.channel_id message)) ;;
                   match data with
                   | Some r =>
                       Done (Responded
                               (make_transcribed_embed message
                                  (Transcription.text r) (Transcription.id r)
                                  (Transcription.created_at r))
                               false)
                   | None =>
                       embed <- bot_read (fun b =>
                                  if task_available (database b)
                                  then make_queue_embed "added" (Some (queue_size b + 1))
                                  else make_queue_embed "starting" None) ;;
                       add_to_queue_task (Discord.author_id ctx) (Discord.id message)
                                         (Discord.channel_id message) (locale_of ctx) ;;
                       bot_write (fun b => with_queue_size (queue_size b + 1) b) ;;
                       Done (Responded embed false)
                   end
             end
         end)%task.

(** ** [Transcriber.process_queue] *)

(** The answer of [channel.fetch_message]: the message, [discord.NotFound],
    or another exception of the client library. *)
Inductive FetchResult :=
| Fetched (message : Discord.Message)
| NotFound
| FetchFailed (exn : string).

(** The answer of the audio pipeline ([attachment.read()], [Audio.file_to_wav]
    and [transcribe_audiobytes] in the executor): the text, or the exception
    one of the three raised. *)
Inductive Heard :=
| Text (transcribed : string)
| PipelineFailed (exn : string).

(** The answer of [message.reply]: the reply is sent, or the client library
    raises (the message was deleted in the meantime, the bot may not write to
    the channel, the request fails). *)
Inductive Sent :=
| Delivered
| ReplyFailed (exn : string).

(** The collaborators of one iteration: the Discord client, the audio
    pipeline and the clock. *)
Record Env := mkEnv {
  get_or_fetch_channel : Z -> option Z;
  fetch_message : Z -> Z -> FetchResult;
  transcribe_audiobytes : Discord.Attachment -> Heard;
  clock : Z;
  reply : Discord.Message -> Sent
}.

(** [message.reply("<@user>", embed=..., mention_author=False)]. *)
Record Reply := mkReply {
  reply_to : Z;
  mention : Z;
  reply_embed : Embed
}.

(** How an iteration of the [while True] loop ends: the loop goes on, with
    the reply it sent if any, or an exception leaves the loop. *)
Inductive Iteration :=
| Continue (sent : option Reply)
| Escaped (exn : string).

(** [client.transcriber.queue_size -= 1], directly after [get()] returns. *)
Definition count_down (b : Bot) : Bot := with_queue_size (queue_size b - 1) b.

(** The iteration from the channel lookup on.  Only [discord.NotFound] of
    [fetch_message] is caught; [message.reply] is awaited after the result
    has been stored, outside any [try]. *)
Definition process_queue_iteration (env : Env) (task : Job.t) : Task Iteration :=
  match get_or_fetch_channel env (Job.channel_id task) with
  | None => Done (Continue None)
  | Some channel =>
      match fetch_message env channel (Job.message_id task) with
      | NotFound => Done (Continue None)
      | FetchFailed exn => Done (Escaped exn)
      | Fetched message =>
          match Discord.attachments message with
          | [] => Done (Escaped "IndexError")
          | a :: _ =>
              match transcribe_audiobytes env a with
              | PipelineFailed exn => Done (Escaped exn)
              | Text transcribed =>
                  (stored <- Await (fun b =>
                               let '(r, db) :=
                                 add_transcription (Job.message_id task)
                                   (Job.channel_id task) transcribed (clock env)
                                   (database b) in
                               (r, with_database db b)) Done ;;
                   match reply env message with
                   | Delivered =>
                       Done (Continue
                               (Some (mkReply (Discord.id message) (Job.user_id task)
                                        (make_transcribed_embed message transcribed
                                           (fst stored) (snd stored)))))
                   | ReplyFailed exn => Done (Escaped exn)
                   end)%task
              end
          end
      end
  end.

(** ** The bot as a transition system

    The worker is one coroutine ([main.py], [on_start]): it is inside [get()],
    at one of the program counters of the loop, or it is processing the job
    that [get()] returned, or an exception has ended it.  Command handlers
    run while the worker is suspended.  In this system each handler runs to
    completion before anything else is scheduled; [admissible] restricts
    which submissions are considered. *)

Inductive Worker :=
| Getting (pc : GetPc)
| Processing (j : Job.t)
| Stopped.

Record World := mkWorld {
  bot : Bot;
  worker : Worker
}.

Definition fresh_world (owners : Z -> bool) : World :=
  mkWorld (on_start owners empty_table empty_table) (Getting AtSelect).

(** The end of an iteration: the loop calls [get()] again, or the exception
    ends the coroutine. *)
Definition next_worker (it : Iteration) : Worker :=
  match it with
  | Continue _ => Getting AtSelect
  | Escaped _ => Stopped
  end.

(** The worker has taken [j] out of the queue and has not finished it. *)
Definition holds (k : Worker) (j : Job.t) : Prop :=
  k = Getting (Returned j) \/ k = Processing j.

Section Steps.
Variable admissible : World -> Discord.Message -> Prop.

Inductive step (w : World) : World -> Prop :=
| step_submit ctx message :
    admissible w message ->
    step w (mkWorld (snd (run (transcribe ctx message) (bot w))) (worker w))
| step_get pc pc' db' :
    worker w = Getting pc ->
    get_step pc (database (bot w)) = Some (pc', db') ->
    step w (mkWorld (with_database db' (bot w)) (Getting pc'))
| step_count_down j :
    worker w = Getting (Returned j) ->
    step w (mkWorld (count_down (bot w)) (Processing j))
| step_finish env j :
    worker w = Processing j ->
    step w (mkWorld (snd (run (process_queue_iteration env j) (bot w)))
                    (next_worker (fst (run (process_queue_iteration env j) (bot w)))))
| step_sweep now :
    step w (mkWorld (bot_delete_outdated now (bot w)) (worker w))
| step_restart :
    step w (mkWorld (on_start (is_owner (bot w)) (queue (database (bot w)))
                              (transcriptions (database (bot w))))
                    (Getting AtSelect)).

Inductive reachable : World -> Prop :=
| reachable_fresh owners : reachable (fresh_world owners)
| reachable_step w w' : reachable w -> step w w' -> reachable w'.

End Steps.

(** Every submission is considered. *)
Definition any_submission (w : World) (message : Discord.Message) : Prop := True.

(** Submissions of a source whose job is in flight are left out. *)
Definition not_in_flight (w : World) (message : Discord.Message) : Prop :=
  forall j, holds (worker w) j -> Job.message_id j <> Discord.id message.

(** The pool with its [n]-th coroutine replaced. *)
Fixpoint replace_nth {A : Type} (n : nat) (x : A) (l : list A) : list A :=
  match l, n with
  | [], _ => []
  | _ :: l', O => x :: l'
  | y :: l', S n' => y :: replace_nth n' x l'
  end.

(** Coroutines whose atomic operations are interleaved: the schedule names,
    slot by slot, the coroutine of the pool that is resumed. *)
Fixpoint interleave {A : Type} (schedule : list nat) (pool : list (Task A)) (b : Bot)
    : list (Task A) * Bot :=
  match schedule with
  | [] => (pool, b)
  | i :: schedule' =>
      match nth_error pool i with
      | Some t =>
          let '(t', b') := resume t b in
          interleave schedule' (replace_nth i t' pool) b'
      | None => interleave schedule' pool b
      end
  end.

(** ** The worker's dequeue loop next to concurrent enqueues

    [unsignalled] counts the calls of [add_to_queue] that have committed their
    row and have not yet set the event. *)

Record Async := mkAsync {
  adb : Database;
  wpc : GetPc;
  unsignalled : nat
}.

Inductive async_step : Async -> Async -> Prop :=
| async_get db pc n pc' db' :
    get_step pc db = Some (pc', db') ->
    async_step (mkAsync db pc n) (mkAsync db' pc' n)
| async_again db j n :
    (* process_queue handles the job and calls get() again *)
    async_step (mkAsync db (Returned j) n) (mkAsync db AtSelect n)
| async_commit db pc n user_id message_id channel_id locale :
    async_step (mkAsync db pc n)
               (mkAsync (insert_job user_id message_id channel_id locale db) pc (S n))
| async_set db pc n :
    async_step (mkAsync db pc (S n)) (mkAsync (set_event db) pc n)
| async_results db pc n r :
    (* add_transcription and delete_outdated only touch the other table *)
    async_step (mkAsync db pc n) (mkAsync (with_transcriptions r db) pc n).

Inductive async_reachable : Async -> Prop :=
| async_init q r : async_reachable (mkAsync (initialize q r) AtSelect 0)
| async_next s s' : async_reachable s -> async_step s s' -> async_reachable s'.

(** The enqueuers finish: every committed [add_to_queue] sets the event. *)
Fixpoint signal_all (n : nat) (db : Database) : Database :=
  match n with
  | O => db
  | S n' => signal_all n' (set_event db)
  end.

(** ** Sequences of enqueues and dequeues *)

(** The arguments of one [add_to_queue] call. *)
Definition Submission : Type := (Z * Z * Z * string)%type.

Definition submission_of (j : Job.t) : Submission :=
  (Job.user_id j, Job.message_id j, Job.channel_id j, Job.locale j).

Definition enqueue (s : Submission) (db : Database) : Database :=
  let '(user_id, message_id, channel_id, locale) := s in
  add_to_queue user_id message_id channel_id locale db.

Definition enqueue_all (subs : list Submission) (db : Database) : Database :=
  fold_left (fun db s => enqueue s db) subs db.

(** [n] calls of [get()] in a row, as long as they return. *)
Fixpoint drain (n : nat) (db : Database) : list Job.t * Database :=
  match n with
  | O => ([], db)
  | S n' =>
      match get 2 db with
      | (Returned j, db') => let '(js, db'') := drain n' db' in (j :: js, db'')
      | _ => ([], db)
      end
  end.

(** ** The command handler run on its own *)

(** The conditions the handler tests, in the state it is started in. *)
Definition voice_note_ok (message : Discord.Message) : bool :=
  truthy (has_voice_note message).

Definition submitter_queued (ctx : Discord.Context) (b : Bot) : bool :=
  negb (is_owner b (Discord.author_id ctx))
  && user_in_queue (Discord.author_id ctx) (database b).

Definition source_queued (message : Discord.Message) (b : Bot) : bool :=
  message_in_queue (Discord.id message) (database b).

(** [message.attachments[0].duration_secs], when both exist. *)
Definition first_duration (message : Discord.Message) : option Q :=
  match Discord.attachments message with
  | [] => None
  | a :: _ => Discord.duration_secs a
  end.

Definition cached (message : Discord.Message) (b : Bot) : option Transcription.t :=
  get_transcription (Discord.id message) (Discord.channel_id message) (database b).

(** The bot after an accepted submission: the job is in the queue, the event
    is set and the counter is one higher. *)
Definition enqueued (ctx : Discord.Context) (message : Discord.Message) (b : Bot) : Bot :=
  with_queue_size (queue_size b + 1)
    (with_database
       (add_to_queue (Discord.author_id ctx) (Discord.id message)
                     (Discord.channel_id message) (locale_of ctx) (database b))
       b).

(** The embed of an accepted submission, built before the enqueue. *)
Definition queue_notice (b : Bot) : Embed :=
  if task_available (database b)
  then make_queue_embed "added" (Some (queue_size b + 1))
  else make_queue_embed "starting" None.

(** ** The order of the admission rules as section 4.3 of the specification
    words it: validation (attachment, voice note, duration) first, then the
    two duplicate checks, then the cache, then acceptance. *)

Inductive Verdict :=
| Invalid
| SubmitterQueued
| SourceQueued
| ServedFromCache (r : Transcription.t)
| Accepted.

Definition validation_fails (message : Discord.Message) : bool :=
  negb (voice_note_ok message)
  || match first_duration message with
     | Some d => longer_than_60 d
     | None => false
     end.

Definition verdict_in_spec_order (ctx : Discord.Context) (message : Discord.Message)
    (b : Bot) : Verdict :=
  if validation_fails message then Invalid
  else if submitter_queued ctx b then SubmitterQueued
  else if source_queued message b then SourceQueued
  else match cached message b with
       | Some r => ServedFromCache r
       | None => Accepted
       end.

(** The rule an embed of the handler stands for. *)
Definition verdict_of_embed (e : Embed) : option Verdict :=
  match e with
  | ErrorEmbed "transcribe.no-voice-note" => Some Invalid
  | ErrorEmbed "transcribe.too-long" => Some Invalid
  | ErrorEmbed "transcribe.user-in-queue" => Some SubmitterQueued
  | ErrorEmbed "transcribe.message-in-queue" => Some SourceQueued
  | QueueEmbed _ _ => Some Accepted
  | _ => None
  end.

Definition verdict_of_outcome (o : Outcome) : option Verdict :=
  match o with
  | Responded (TranscribedEmbed _ _ _ _) _ => None
  | Responded e _ => verdict_of_embed e
  | Raised _ => None
  end.

(** ** Sample data *)

Module Sample.

Definition nobody : Z -> bool := fun _ => false.

(** A five-second voice message, number 100 in channel 9. *)
Definition voice_100 : Discord.Message :=
  Discord.mkMessage 100 9 [Discord.mkAttachment (Some (5 # 1))] (2 ^ 13).

(** A 61-second voice message, number 200 in channel 9. *)
Definition long_200 : Discord.Message :=
  Discord.mkMessage 200 9 [Discord.mkAttachment (Some (61 # 1))] (2 ^ 13).

(** Two more five-second voice messages of channel 9. *)
Definition voice_101 : Discord.Message :=
  Discord.mkMessage 101 9 [Discord.mkAttachment (Some (5 # 1))] (2 ^ 13).

Definition voice_102 : Discord.Message :=
  Discord.mkMessage 102 9 [Discord.mkAttachment (Some (5 # 1))] (2 ^ 13).

Definition user_1 : Discord.Context := Discord.mkContext 1 (Some "en-US"%string) None.
Definition user_2 : Discord.Context := Discord.mkContext 2 None (Some "fr"%string).
Definition user_3 : Discord.Context := Discord.mkContext 3 None None.

(** A bot started on empty tables. *)
Definition fresh : Bot := on_start nobody empty_table empty_table.

(** The bot after user 1 has submitted message 100. *)
Definition one_pending : Bot := snd (run (transcribe user_1 voice_100) fresh).

(** A bot started on a cache that holds a result for message 100. *)
Definition with_result : Bot :=
  on_start nobody empty_table
           (mkTable [Transcription.mk 1 100 9 "hello" 1000] 1).

End Sample.

(** ** Properties of the bot's state *)

(** The program counters at which [get()] holds no job. *)
Definition empty_handed (pc : GetPc) : Prop :=
  match pc with
  | AtSelect | AtWait | Suspended => True
  | AtDelete _ | Returned _ => False
  end.

Definition counter_in_sync (b : Bot) : Prop :=
  queue_size b = get_queue_size (database b).

Definition one_job_per_source (b : Bot) : Prop :=
  forall m, count_where (fun j => Job.message_id j =? m) (queue (database b)) <= 1.

Definition one_job_per_submitter (b : Bot) : Prop :=
  forall u, is_owner b u = false ->
            count_where (fun j => Job.user_id j =? u) (queue (database b)) <= 1.

Definition same_source (m c : Z) (r : Transcription.t) : bool :=
  (Transcription.message_id r =? m) && (Transcription.channel_id r =? c).

Definition one_result_per_source (b : Bot) : Prop :=
  forall m c, count_where (same_source m c) (transcriptions (database b)) <= 1.

Definition no_result_for (j : Job.t) (b : Bot) : Prop :=
  get_transcription (Job.message_id j) (Job.channel_id j) (database b) = None.

(** The worker abandons the job: the channel is gone, or the message is. *)
Definition stale (env : Env) (j : Job.t) : Prop :=
  get_or_fetch_channel env (Job.channel_id j) = None \/
  exists channel,
    get_or_fetch_channel env (Job.channel_id j) = Some channel /\
    fetch_message env channel (Job.message_id j) = NotFound.

(** An exception that is not caught is raised before anything is stored:
    [fetch_message] fails with something other than [NotFound], the fetched
    message has no attachment, or the audio pipeline fails. *)
Definition fails_before_store (env : Env) (j : Job.t) (exn : string) : Prop :=
  exists channel,
    get_or_fetch_channel env (Job.channel_id j) = Some channel /\
    (fetch_message env channel (Job.message_id j) = FetchFailed exn \/
     exists message,
       fetch_message env channel (Job.message_id j) = Fetched message /\
       ((Discord.attachments message = [] /\ exn = "IndexError"%string) \/
        exists a rest,
          Discord.attachments message = a :: rest /\
          transcribe_audiobytes env a = PipelineFailed exn)).

(** The pipeline hears [text] and the reply to the fetched message fails. *)
Definition fails_at_reply (env : Env) (j : Job.t) (text exn : string) : Prop :=
  exists channel message a rest,
    get_or_fetch_channel env (Job.channel_id j) = Some channel /\
    fetch_message env channel (Job.message_id j) = Fetched message /\
    Discord.attachments message = a :: rest /\
    transcribe_audiobytes env a = Text text /\
    reply env message = ReplyFailed exn.

(** [get()] has deleted the row and [queue_size -= 1] has not run yet. *)
Definition counter_ahead (k : Worker) : Z :=
  match k with
  | Getting (Returned _) => 1
  | _ => 0
  end.

(** What holds of the queue between any two steps of the bot. *)
Definition queue_inv (w : World) : Prop :=
  table_wf (queue (database (bot w))) /\
  queue_size (bot w) = get_queue_size (database (bot w)) + counter_ahead (worker w) /\
  one_job_per_source (bot w) /\
  one_job_per_submitter (bot w) /\
  (forall j, worker w = Getting (AtDelete j) ->
             In j (rows (queue (database (bot w))))).

(** What holds of the cache as long as no source is submitted while its job
    is in flight. *)
Definition cache_inv (w : World) : Prop :=
  one_result_per_source (bot w) /\
  (forall j, In j (rows (queue (database (bot w)))) -> no_result_for j (bot w)) /\
  (forall j, holds (worker w) j ->
             no_result_for j (bot w) /\
             message_in_queue (Job.message_id j) (database (bot w)) = false).

(** ** Runs of the bot on the sample data *)

Module Run.

(** A command handler runs to completion. *)
Definition submit (ctx : Discord.Context) (message : Discord.Message) (w : World) : World :=
  mkWorld (snd (run (transcribe ctx message) (bot w))) (worker w).

(** The worker moves by one step; [env] answers when it finishes a job. *)
Definition work (env : Env) (w : World) : World :=
  match worker w with
  | Getting (Returned j) => mkWorld (count_down (bot w)) (Processing j)
  | Getting pc =>
      match get_step pc (database (bot w)) with
      | Some (pc', db') => mkWorld (with_database db' (bot w)) (Getting pc')
      | None => w
      end
  | Processing j =>
      mkWorld (snd (run (process_queue_iteration env j) (bot w)))
              (next_worker (fst (run (process_queue_iteration env j) (bot w))))
  | Stopped => w
  end.

Fixpoint works (env : Env) (n : nat) (w : World) : World :=
  match n with
  | O => w
  | S n' => works env n' (work env w)
  end.

(** Discord still has message 100, the pipeline hears "hello" and the reply
    is delivered. *)
Definition hello : Env :=
  mkEnv (fun c => Some c) (fun _ _ => Fetched Sample.voice_100)
        (fun _ => Text "hello") 1000 (fun _ => Delivered).

(** The worker on a fresh bot finds the queue empty and parks on the event. *)
Definition parked : World := works hello 2 (fresh_world Sample.nobody).

(** User 1 submits message 100; the worker wakes, clears the event, takes
    the job and starts on it. *)
Definition transcribing : World :=
  works hello 4 (submit Sample.user_1 Sample.voice_100 parked).

(** The worker finishes the job: the result of message 100 is in the cache. *)
Definition transcribed : World := work hello transcribing.

(** User 1 submits message 100 while the worker is parked; the worker is
    resumed, clears the event and is about to select: job 100 waits in the
    queue and the event is clear. *)
Definition woken : World :=
  work hello (submit Sample.user_1 Sample.voice_100 parked).

(** User 2 submits message 101 while the worker transcribes message 100:
    job 101 waits in the queue and the event is set. *)
Definition one_behind : World :=
  submit Sample.user_2 Sample.voice_101 transcribing.

(** Message 100 is submitted again while the worker transcribes it, and the
    worker finishes both jobs. *)
Definition resubmitted_in_flight : World :=
  works hello 5 (submit Sample.user_2 Sample.voice_100 transcribing).

(** Two handlers for message 100, started together and resumed in turn,
    one atomic operation each. *)
Definition overlapping : list (Task Outcome) * Bot :=
  interleave [0; 1; 0; 1; 0; 1; 0; 1; 0; 1; 0; 1; 0; 1; 0; 1]%nat
             [transcribe Sample.user_1 Sample.voice_100;
              transcribe Sample.user_2 Sample.voice_100]
             Sample.fresh.

End Run.

(** ** The event next to the queue *)

(** The event is set, or an enqueuer is about to set it. *)
Definition signal_due (s : Async) : Prop :=
  task_available (adb s) = true \/ (0 < unsignalled s)%nat.

(** The worker waits only on an empty queue or with a signal due, and the
    row it is about to delete is in the queue. *)
Definition async_inv (s : Async) : Prop :=
  (wpc s = AtWait \/ wpc s = Suspended ->
   rows (queue (adb s)) = [] \/ signal_due s) /\
  (forall j, wpc s = AtDelete j -> In j (rows (queue (adb s)))).

(** The worker has looked at an empty queue; an enqueuer then commits job 1
    and, after the worker has parked on the event, sets the event. *)
Definition parked_then_signalled : Async :=
  mkAsync (set_event (insert_job 1 100 9 "en-US" (initialize empty_table empty_table)))
          Suspended 0.

(** The state before: the enqueuer has committed job 1 and has not yet set
    the event, and the worker is parked. *)
Definition committed_not_signalled : Async :=
  mkAsync (insert_job 1 100 9 "en-US" (initialize empty_table empty_table))
          Suspended 1.

(** ** Any order of enqueues and dequeues *)

Inductive QueueOp :=
| Enqueue (s : Submission)
| Dequeue.

Fixpoint submissions_of (ops : list QueueOp) : list Submission :=
  match ops with
  | [] => []
  | Enqueue s :: ops' => s :: submissions_of ops'
  | Dequeue :: ops' => submissions_of ops'
  end.

(** The operations in turn.  A [get()] that finds no row clears the event
    and stays parked, and returns nothing here. *)
Fixpoint play (ops : list QueueOp) (db : Database) : list Job.t * Database :=
  match ops with
  | [] => ([], db)
  | Enqueue s :: ops' => play ops' (enqueue s db)
  | Dequeue :: ops' =>
      match get 4 db with
      | (Returned j, db') => let '(js, db'') := play ops' db' in (j :: js, db'')
      | (_, db') => play ops' db'
      end
  end.

(** No row has an id above the [sqlite_sequence] counter. *)
Definition table_bounded {R : Type} `{HasRowid R} (t : Table R) : Prop :=
  Forall (fun r => rowid r <= seq t) (rows t).

Definition table_ok {R : Type} `{HasRowid R} (t : Table R) : Prop :=
  table_wf t /\ table_bounded t.

(** ** Any order of stored results and sweeps *)

Inductive CacheOp :=
| Put (message_id channel_id : Z) (text : string) (now : Z)
| Sweep (now days : Z).

(** The operations in turn, with the ids [add_transcription] returned. *)
Fixpoint replay (ops : list CacheOp) (db : Database) : list Z * Database :=
  match ops with
  | [] => ([], db)
  | Put m c text now :: ops' =>
      let '((uid, _), db') := add_transcription m c text now db in
      let '(uids, db'') := replay ops' db' in (uid :: uids, db'')
  | Sweep now days :: ops' => replay ops' (delete_outdated now days db)
  end.

(** ** [Transcriber.transcribe_audiobytes]

    The text of the segments the model yields, each stripped and all joined
    without a separator.  A Python string is a sequence of code points;
    [isspace] is [str.isspace], the test [str.strip] applies. *)

Module Transcriber.

Section Segments.
Variable Char : Type.
Variable isspace : Char -> bool.

Fixpoint lstrip (s : list Char) : list Char :=
  match s with
  | [] => []
  | c :: s' => if isspace c then lstrip s' else s
  end.

Definition rstrip (s : list Char) : list Char := rev (lstrip (rev s)).

(** [s.strip()]. *)
Definition strip (s : list Char) : list Char := rstrip (lstrip s).

(** ["".join([s.text.strip() for s in seg])]. *)
Definition transcribe_audiobytes (seg : list (list Char)) : list Char :=
  List.concat (map strip seg).

End Segments.

End Transcriber.

(** ** [Bot.update_presence] and [Bot.on_ready] *)

Module Presence.

(** [len(activities)]: the list built in [update_presence] has two entries. *)
Definition activities : Z := 2.

(** One run of the loop body: the new [current_presence], which is the
    index of the activity shown. *)
Definition update_presence (current_presence : Z) : Z :=
  let next := current_presence + 1 in
  if activities <=? next then 0 else next.

Fixpoint ticks (n : nat) (current_presence : Z) : Z :=
  match n with
  | O => current_presence
  | S n' => update_presence (ticks n' current_presence)
  end.

End Presence.

(** The client between two ready events: the guard [_client_ready], the
    number of [process_queue] coroutines created so far, and the bot. *)
Record Client := mkClient {
  client_ready : bool;
  process_queue_tasks : nat;
  client_bot : Bot
}.

(** [Bot.on_ready], the event handled without interruption: [on_start] runs
    on the persisted tables unless the guard is set. *)
Definition on_ready (c : Client) : Client :=
  if client_ready c then c
  else
    mkClient true (S (process_queue_tasks c))
             (on_start (is_owner (client_bot c))
                       (queue (database (client_bot c)))
                       (transcriptions (database (client_bot c)))).

Fixpoint ready_events (n : nat) (c : Client) : Client :=
  match n with
  | O => c
  | S n' => on_ready (ready_events n' c)
  end.

Unset Implicit Arguments.

(** * Facts about the tables *)

Section SqlFacts.
Context {R : Type} `{HasRowid R}.

Lemma max_rowid_bound (l : list R) (r : R) : In r l -> rowid r <= max_rowid l.
Proof.
  induction l as [|x l IH]; simpl; intros Hin; [contradiction|].
  destruct Hin as [->|Hin]; [lia|].
  specialize (IH Hin). lia.
Qed.

Lemma next_rowid_fresh (t : Table R) (r : R) :
  In r (rows t) -> rowid r < next_rowid t.
Proof.
  intros Hin. apply max_rowid_bound in Hin. unfold next_rowid. lia.
Qed.

Lemma next_rowid_above_seq (t : Table R) : seq t < next_rowid t.
Proof. unfold next_rowid. lia. Qed.

Lemma sorted_snoc (l : list Z) (x : Z) :
  StronglySorted Z.lt l -> (forall y, In y l -> y < x) ->
  StronglySorted Z.lt (l ++ [x]).
Proof.
  induction 1 as [|a l Hs IH Ha]; intros Hx; simpl.
  - repeat constructor.
  - constructor.
    + apply IH. intros y Hy. apply Hx. now right.
    + rewrite Forall_forall in *. intros y Hy.
      apply in_app_or in Hy. destruct Hy as [Hy|[<-|[]]].
      * now apply Ha.
      * apply Hx. now left.
Qed.

Lemma insert_wf (mk : Z -> R) (t : Table R) :
  (forall i, rowid (mk i) = i) -> table_wf t -> table_wf (snd (insert mk t)).
Proof.
  intros Hmk Hwf. unfold table_wf, insert; simpl.
  rewrite map_app; simpl. rewrite Hmk.
  apply sorted_snoc; [exact Hwf|].
  intros y Hy. apply in_map_iff in Hy. destruct Hy as [r [<- Hr]].
  now apply next_rowid_fresh.
Qed.

Lemma sorted_filter (p : R -> bool) (l : list R) :
  StronglySorted Z.lt (map rowid l) ->
  StronglySorted Z.lt (map rowid (filter p l)).
Proof.
  induction l as [|x l IH]; simpl; intros Hs; [constructor|].
  inversion Hs as [|? ? Hs' Hx]; subst.
  destruct (p x); simpl; [constructor|]; auto.
  rewrite Forall_forall in *. intros y Hy.
  apply Hx. apply in_map_iff in Hy. destruct Hy as [r [<- Hr]].
  apply in_map. apply filter_In in Hr. tauto.
Qed.

Lemma delete_where_wf (p : R -> bool) (t : Table R) :
  table_wf t -> table_wf (delete_where p t).
Proof. unfold table_wf, delete_where; simpl. apply sorted_filter. Qed.

Lemma fold_older_none (l : list R) : fold_right older None l = None -> l = [].
Proof.
  destruct l as [|x l]; simpl; [reflexivity|].
  generalize (fold_right older None l). intros [m|]; unfold older.
  - destruct (rowid x <=? rowid m); intros E; discriminate E.
  - intros E; discriminate E.
Qed.

(** The oldest row is a row of the table and no row has a smaller id. *)
Lemma select_first_by_id_min (t : Table R) (m : R) :
  select_first_by_id t = Some m ->
  In m (rows t) /\ forall r, In r (rows t) -> rowid m <= rowid r.
Proof.
  unfold select_first_by_id. generalize (rows t) as l.
  induction l as [|x l IH] in m |- *; simpl; [discriminate|].
  destruct (fold_right older None l) as [m'|] eqn:E; simpl.
  - destruct (IH m' eq_refl) as [Hin Hmin].
    destruct (Z.leb_spec (rowid x) (rowid m')); intros [= <-].
    + split; [now left|]. intros r [<-|Hr]; [lia|].
      specialize (Hmin r Hr). lia.
    + split; [now right|]. intros r [<-|Hr]; [lia|]. now apply Hmin.
  - intros [= <-]. split; [now left|].
    apply fold_older_none in E. subst l.
    intros r [<-|[]]. lia.
Qed.

Lemma select_first_by_id_none (t : Table R) :
  select_first_by_id t = None <-> rows t = [].
Proof.
  unfold select_first_by_id. split.
  - apply fold_older_none.
  - intros ->. reflexivity.
Qed.

(** In a well-formed table the oldest row is the first one. *)
Lemma select_first_by_id_head (t : Table R) (x : R) (l : list R) :
  table_wf t -> rows t = x :: l -> select_first_by_id t = Some x.
Proof.
  unfold table_wf. intros Hwf Hrows.
  destruct (select_first_by_id t) as [m|] eqn:E.
  - apply select_first_by_id_min in E. destruct E as [Hin Hmin].
    rewrite Hrows in *. simpl in Hwf.
    inversion Hwf as [|? ? _ Hx]; subst.
    destruct Hin as [->|Hin]; [reflexivity|].
    rewrite Forall_forall in Hx.
    specialize (Hx (rowid m) (in_map _ _ _ Hin)).
    specialize (Hmin x (or_introl eq_refl)). lia.
  - apply select_first_by_id_none in E. congruence.
Qed.

Lemma filter_all (p : R -> bool) (l : list R) :
  (forall r, In r l -> p r = true) -> filter p l = l.
Proof.
  induction l as [|x l IH]; simpl; intros Hp; [reflexivity|].
  rewrite (Hp x (or_introl eq_refl)). f_equal. apply IH. intros; apply Hp; now right.
Qed.

(** Deleting the first row by its id removes that row and no other. *)
Lemma delete_head_by_id (t : Table R) (x : R) (l : list R) :
  table_wf t -> rows t = x :: l ->
  delete_where (fun r => rowid r =? rowid x) t = mkTable l (seq t).
Proof.
  unfold table_wf, delete_where. intros Hwf Hrows. rewrite Hrows in *.
  simpl in *. rewrite Z.eqb_refl; simpl. f_equal.
  inversion Hwf as [|? ? _ Hx]; subst. rewrite Forall_forall in Hx.
  apply filter_all. intros r Hr.
  specialize (Hx (rowid r) (in_map _ _ _ Hr)).
  destruct (Z.eqb_spec (rowid r) (rowid x)); [lia|reflexivity].
Qed.

Lemma count_where_nonneg (p : R -> bool) (t : Table R) : 0 <= count_where p t.
Proof. unfold count_where. lia. Qed.

Lemma count_where_zero (p : R -> bool) (t : Table R) :
  count_where p t = 0 <-> forall r, In r (rows t) -> p r = false.
Proof.
  unfold count_where. split.
  - intros Hc r Hr. destruct (p r) eqn:E; [|reflexivity].
    assert (Hin : In r (filter p (rows t))) by (apply filter_In; tauto).
    destruct (filter p (rows t)); [contradiction|simpl in Hc; lia].
  - intros Hp. replace (filter p (rows t)) with (@nil R); [reflexivity|].
    symmetry. induction (rows t) as [|x l IH]; simpl; [reflexivity|].
    rewrite (Hp x (or_introl eq_refl)). apply IH. intros; apply Hp; now right.
Qed.

Lemma count_where_insert (p : R -> bool) (mk : Z -> R) (t : Table R) :
  count_where p (snd (insert mk t)) =
  count_where p t + (if p (mk (next_rowid t)) then 1 else 0).
Proof.
  unfold count_where, insert; simpl. rewrite filter_app, length_app; simpl.
  destruct (p _); simpl; lia.
Qed.

Lemma count_where_delete_le (p q : R -> bool) (t : Table R) :
  count_where p (delete_where q t) <= count_where p t.
Proof.
  unfold count_where, delete_where; simpl.
  induction (rows t) as [|x l IH]; simpl; [lia|].
  destruct (q x); simpl; destruct (p x); simpl; lia.
Qed.

End SqlFacts.

(** * The queue store *)

Lemma insert_job_rows (u m c : Z) (l : string) (db : Database) :
  rows (queue (insert_job u m c l db)) =
  rows (queue db) ++ [Job.mk (next_rowid (queue db)) u m c l].
Proof. reflexivity. Qed.

Lemma insert_job_wf (u m c : Z) (l : string) (db : Database) :
  table_wf (queue db) -> table_wf (queue (insert_job u m c l db)).
Proof.
  intros Hwf. unfold insert_job; simpl.
  apply (insert_wf (fun i => Job.mk i u m c l)); [reflexivity|exact Hwf].
Qed.

(** On a queue with rows, [get()] returns after two steps of its loop with
    the first row, and the queue keeps the other rows. *)
Lemma get_returns_head (db : Database) (j : Job.t) (rest : list Job.t) (fuel : nat) :
  table_wf (queue db) -> rows (queue db) = j :: rest -> (2 <= fuel)%nat ->
  get fuel db = (Returned j, with_queue (mkTable rest (seq (queue db))) db).
Proof.
  intros Hwf Hrows Hfuel.
  destruct fuel as [|[|fuel]]; try lia.
  pose proof (delete_head_by_id _ _ _ Hwf Hrows) as Hdel.
  change (delete_where (fun r : Job.t => Job.id r =? Job.id j) (queue db)
          = mkTable rest (seq (queue db))) in Hdel.
  unfold get. cbn [get_loop get_step].
  rewrite (select_first_by_id_head _ _ _ Hwf Hrows). cbn [get_loop get_step].
  rewrite Hdel. destruct fuel; reflexivity.
Qed.

Lemma enqueue_all_appends (subs : list Submission) (db : Database) :
  table_wf (queue db) ->
  exists news,
    rows (queue (enqueue_all subs db)) = rows (queue db) ++ news /\
    map submission_of news = subs /\
    table_wf (queue (enqueue_all subs db)) /\
    Forall (fun j => seq (queue db) < Job.id j) news.
Proof.
  revert db. induction subs as [|[[[u m] c] l] subs IH]; intros db Hwf.
  - exists []. simpl. rewrite app_nil_r. repeat split; auto.
  - simpl. destruct (IH (add_to_queue u m c l db)) as (news & Hrows & Hmap & Hwf' & Hseq).
    { apply insert_job_wf, Hwf. }
    exists (Job.mk (next_rowid (queue db)) u m c l :: news).
    repeat split.
    + rewrite Hrows. simpl. rewrite <- app_assoc. reflexivity.
    + simpl. now rewrite Hmap.
    + exact Hwf'.
    + constructor.
      * simpl. apply next_rowid_above_seq.
      * eapply Forall_impl; [|exact Hseq]. simpl. intros j Hj.
        pose proof (next_rowid_above_seq (queue db)). lia.
Qed.

Lemma drain_in_order (l : list Job.t) (db : Database) :
  table_wf (queue db) -> rows (queue db) = l ->
  drain (List.length l) db = (l, with_queue (mkTable [] (seq (queue db))) db).
Proof.
  revert db. induction l as [|j rest IH]; intros db Hwf Hrows; simpl.
  - destruct db as [[q s] r e]. simpl in *. subst. reflexivity.
  - rewrite (get_returns_head _ _ _ 2%nat Hwf Hrows (le_n 2)).
    rewrite IH; simpl; auto.
    unfold table_wf in *. rewrite Hrows in Hwf. simpl in *.
    now inversion Hwf.
Qed.

(** C1. On a queue with pending jobs [get()] returns the job with the
    smallest id and removes that job and no other; [add_to_queue] gives each
    new job an id above every id handed out before, so jobs enqueued one
    after the other are dequeued in the order of their enqueues. *)
Theorem C1_get_returns_oldest_in_fifo_order (db : Database) (subs : list Submission) :
  table_wf (queue db) ->
  let db1 := enqueue_all subs db in
  (exists news,
      rows (queue db1) = rows (queue db) ++ news /\
      map submission_of news = subs /\
      StronglySorted Z.lt (map Job.id (rows (queue db) ++ news)) /\
      Forall (fun j => seq (queue db) < Job.id j) news) /\
  (forall j rest, rows (queue db1) = j :: rest ->
      (forall j', In j' (rows (queue db1)) -> Job.id j <= Job.id j') /\
      (forall j', In j' rest -> Job.id j < Job.id j') /\
      forall fuel, (2 <= fuel)%nat ->
        get fuel db1 = (Returned j, with_queue (mkTable rest (seq (queue db1))) db1)) /\
  fst (drain (List.length (rows (queue db1))) db1) = rows (queue db1).
Proof.
  intros Hwf db1.
  destruct (enqueue_all_appends subs db Hwf) as (news & Hrows & Hmap & Hwf1 & Hseq).
  fold db1 in Hrows, Hwf1.
  split; [|split].
  - exists news. repeat split; auto.
    unfold table_wf in Hwf1. now rewrite Hrows in Hwf1.
  - intros j rest Hjr.
    assert (Hlt : forall j', In j' rest -> Job.id j < Job.id j').
    { unfold table_wf in Hwf1. rewrite Hjr in Hwf1. simpl in Hwf1.
      inversion Hwf1 as [|? ? _ Hall]; subst. rewrite Forall_forall in Hall.
      intros j' Hj'. apply Hall. now apply (in_map Job.id). }
    repeat split.
    + rewrite Hjr. intros j' [<-|Hj']; [lia|]. specialize (Hlt j' Hj'). lia.
    + exact Hlt.
    + intros fuel Hfuel. now apply get_returns_head.
  - now rewrite (drain_in_order _ _ Hwf1 eq_refl).
Qed.

(** Three jobs are enqueued on an empty queue and come back in that order. *)
Lemma C1_get_returns_oldest_witness :
  let db := initialize empty_table empty_table in
  let subs : list Submission :=
    [(1, 100, 9, "en-US"%string); (2, 101, 9, "fr"%string); (3, 102, 8, "de"%string)] in
  table_wf (queue db) /\
  fst (drain (List.length (rows (queue (enqueue_all subs db)))) (enqueue_all subs db))
  = rows (queue (enqueue_all subs db)).
Proof.
  intros db subs.
  assert (Hwf : table_wf (queue db)) by (unfold table_wf; simpl; constructor).
  split; [exact Hwf|].
  exact (proj2 (proj2 (C1_get_returns_oldest_in_fifo_order db subs Hwf))).
Defined.

(** * The command handler *)

Lemma run_bind {A B : Type} (t : Task A) (f : A -> Task B) (b : Bot) :
  run (bind t f) b = let '(a, b') := run t b in run (f a) b'.
Proof.
  revert b. induction t as [a|X op k IH]; intros b; simpl; [reflexivity|].
  destruct (op b) as [x b']. apply IH.
Qed.

Lemma run_add_to_queue_task (u m c : Z) (l : string) (b : Bot) :
  run (add_to_queue_task u m c l) b
  = (tt, with_database (add_to_queue u m c l (database b)) b).
Proof. reflexivity. Qed.

(** The handler run without interruption, branch by branch. *)
Lemma run_transcribe (ctx : Discord.Context) (message : Discord.Message) (b : Bot) :
  run (transcribe ctx message) b =
  if negb (voice_note_ok message) then
    (Responded (make_error_embed "transcribe.no-voice-note") true, b)
  else if submitter_queued ctx b then
    (Responded (make_error_embed "transcribe.user-in-queue") true, b)
  else if source_queued message b then
    (Responded (make_error_embed "transcribe.message-in-queue") true, b)
  else
    match Discord.attachments message with
    | [] => (Raised "IndexError", b)
    | a :: _ =>
        match Discord.duration_secs a with
        | None => (Raised "TypeError", b)
        | Some d =>
            if longer_than_60 d then
              (Responded (make_error_embed "transcribe.too-long") true, b)
            else
              match cached message b with
              | Some r =>
                  (Responded
                     (make_transcribed_embed message (Transcription.text r)
                        (Transcription.id r) (Transcription.created_at r)) false, b)
              | None => (Responded (queue_notice b) false, enqueued ctx message b)
              end
        end
    end.
Proof.
  unfold transcribe, voice_note_ok, submitter_queued, source_queued, cached, queue_notice.
  destruct (negb (truthy (has_voice_note message))); [reflexivity|].
  destruct b as [own db n]; simpl.
  destruct (own (Discord.author_id ctx)); simpl.
  - destruct (message_in_queue (Discord.id message) db); simpl; [reflexivity|].
    destruct (Discord.attachments message) as [|a ?]; simpl; [reflexivity|].
    destruct (Discord.duration_secs a) as [d|]; simpl; [|reflexivity].
    destruct (longer_than_60 d); simpl; [reflexivity|].
    destruct (get_transcription _ _ db); reflexivity.
  - destruct (user_in_queue (Discord.author_id ctx) db); simpl; [reflexivity|].
    destruct (message_in_queue (Discord.id message) db); simpl; [reflexivity|].
    destruct (Discord.attachments message) as [|a ?]; simpl; [reflexivity|].
    destruct (Discord.duration_secs a) as [d|]; simpl; [|reflexivity].
    destruct (longer_than_60 d); simpl; [reflexivity|].
    destruct (get_transcription _ _ db); reflexivity.
Qed.

Lemma shiftr_13_zero (n : Z) : 0 <= n -> (Z.shiftr n 13 = 0 <-> n < 2 ^ 13).
Proof.
  intros Hn. rewrite Z.shiftr_div_pow2 by lia.
  rewrite Z.div_small_iff by lia. lia.
Qed.

(** C10. A message passes the voice-note test exactly when it has an
    attachment and its flags are at least 2^13; any attachment together with
    flags whose shift by 13 is not zero passes, and the handler answers
    "no voice note" exactly when the test fails. *)
Theorem C10_has_voice_note_tests_flags_from_bit_13
    (message : Discord.Message) (ctx : Discord.Context) (b : Bot) :
  0 <= Discord.flags_value message ->
  (truthy (has_voice_note message) = true <->
     Discord.attachments message <> [] /\ 2 ^ 13 <= Discord.flags_value message) /\
  (Discord.attachments message <> [] ->
     Z.shiftr (Discord.flags_value message) 13 <> 0 ->
     truthy (has_voice_note message) = true) /\
  (fst (run (transcribe ctx message) b)
     = Responded (make_error_embed "transcribe.no-voice-note") true <->
   truthy (has_voice_note message) = false).
Proof.
  intros Hflags.
  assert (Hshape : truthy (has_voice_note message) = true <->
                   Discord.attachments message <> [] /\
                   Z.shiftr (Discord.flags_value message) 13 <> 0).
  { unfold has_voice_note, py_and.
    destruct (Discord.attachments message) as [|a l]; simpl.
    - split; [discriminate|]. intros [H _]. now contradiction H.
    - unfold Py.bool_of_int. rewrite negb_true_iff, Z.eqb_neq.
      split; [intros H; split; [discriminate|exact H]|tauto]. }
  pose proof (shiftr_13_zero _ Hflags) as Hz.
  split; [|split].
  - rewrite Hshape. split; intros [Ha Hs]; (split; [exact Ha|]); lia.
  - intros Ha Hs. apply Hshape. tauto.
  - rewrite run_transcribe. unfold voice_note_ok.
    destruct (truthy (has_voice_note message)); simpl.
    + split; [|discriminate].
      destruct (submitter_queued ctx b); [discriminate|].
      destruct (source_queued message b); [discriminate|].
      destruct (Discord.attachments message) as [|a ?]; [discriminate|].
      destruct (Discord.duration_secs a) as [d|]; [|discriminate].
      destruct (longer_than_60 d); [discriminate|].
      unfold queue_notice.
      destruct (cached message b); [discriminate|].
      destruct (task_available (database b)); discriminate.
    + tauto.
Qed.

(** Flags with bit 14 alone: bit 13, the voice-message bit, is clear and the
    test passes. *)
Lemma C10_has_voice_note_witness :
  let message := Discord.mkMessage 100 9 [Discord.mkAttachment (Some (5 # 1))] (2 ^ 14) in
  0 <= Discord.flags_value message /\
  Z.testbit (Discord.flags_value message) 13 = false /\
  truthy (has_voice_note message) = true.
Proof.
  intros message.
  assert (Hflags : 0 <= Discord.flags_value message) by (simpl; lia).
  split; [exact Hflags|]. split; [reflexivity|].
  apply (proj1 (C10_has_voice_note_tests_flags_from_bit_13
                  message (Discord.mkContext 1 None None)
                  (on_start (fun _ => false) empty_table empty_table) Hflags)).
  split; [discriminate|simpl; lia].
Defined.

Lemma first_duration_run (message : Discord.Message) (d : Q) :
  first_duration message = Some d ->
  exists a l, Discord.attachments message = a :: l /\ Discord.duration_secs a = Some d.
Proof.
  unfold first_duration. destruct (Discord.attachments message) as [|a l]; [discriminate|].
  intros Hd. now exists a, l.
Qed.

(** The handler's state is untouched unless it enqueues. *)
Ltac handler_branch :=
  rewrite run_transcribe;
  repeat match goal with
         | H : ?c = _ |- context [if negb ?c then _ else _] => rewrite H; simpl negb; cbv iota
         | H : ?c = _ |- context [if ?c then _ else _] => rewrite H
         | H : first_duration _ = Some _ |- _ =>
             apply first_duration_run in H; destruct H as (? & ? & -> & ->)
         | H : cached _ _ = _ |- _ => rewrite H
         end;
  try reflexivity.

(** C2, as the code orders the rules: the voice-note test comes first, then
    the submitter's pending job, then the source's pending job, then the
    60-second ceiling, then the cache, and only then the enqueue; the first
    rule that applies decides, and a rejection leaves the bot as it was. *)
Theorem C2_rules_are_tested_in_the_order_of_the_code
    (ctx : Discord.Context) (message : Discord.Message) (b : Bot) :
  (voice_note_ok message = false ->
     run (transcribe ctx message) b
     = (Responded (make_error_embed "transcribe.no-voice-note") true, b)) /\
  (voice_note_ok message = true -> submitter_queued ctx b = true ->
     run (transcribe ctx message) b
     = (Responded (make_error_embed "transcribe.user-in-queue") true, b)) /\
  (voice_note_ok message = true -> submitter_queued ctx b = false ->
   source_queued message b = true ->
     run (transcribe ctx message) b
     = (Responded (make_error_embed "transcribe.message-in-queue") true, b)) /\
  (forall d,
   voice_note_ok message = true -> submitter_queued ctx b = false ->
   source_queued message b = false ->
   first_duration message = Some d -> longer_than_60 d = true ->
     run (transcribe ctx message) b
     = (Responded (make_error_embed "transcribe.too-long") true, b)) /\
  (forall d r,
   voice_note_ok message = true -> submitter_queued ctx b = false ->
   source_queued message b = false ->
   first_duration message = Some d -> longer_than_60 d = false ->
   cached message b = Some r ->
     run (transcribe ctx message) b
     = (Responded (make_transcribed_embed message (Transcription.text r)
                     (Transcription.id r) (Transcription.created_at r)) false, b)) /\
  (forall d,
   voice_note_ok message = true -> submitter_queued ctx b = false ->
   source_queued message b = false ->
   first_duration message = Some d -> longer_than_60 d = false ->
   cached message b = None ->
     run (transcribe ctx message) b
     = (Responded (queue_notice b) false, enqueued ctx message b)).
Proof.
  repeat split; intros; handler_branch.
Qed.

(** User 1 has a job pending and submits a 61-second voice message: the
    code answers "user in queue"; the duration is never looked at. *)
Lemma C2_rules_in_code_order_witness :
  voice_note_ok Sample.long_200 = true /\
  submitter_queued Sample.user_1 Sample.one_pending = true /\
  run (transcribe Sample.user_1 Sample.long_200) Sample.one_pending
  = (Responded (make_error_embed "transcribe.user-in-queue") true, Sample.one_pending).
Proof.
  assert (Hv : voice_note_ok Sample.long_200 = true) by reflexivity.
  assert (Hq : submitter_queued Sample.user_1 Sample.one_pending = true) by reflexivity.
  split; [exact Hv|]. split; [exact Hq|].
  exact (proj1 (proj2 (C2_rules_are_tested_in_the_order_of_the_code
                         Sample.user_1 Sample.long_200 Sample.one_pending)) Hv Hq).
Defined.

(** C2 as stated fails: with the validation of section 4.3 as step 1 the
    61-second message of a queued submitter is invalid, and the code rejects
    it as a duplicate of the submitter. *)
Lemma C2_duration_is_tested_after_the_duplicates :
  validation_fails Sample.long_200 = true /\
  verdict_in_spec_order Sample.user_1 Sample.long_200 Sample.one_pending = Invalid /\
  verdict_of_outcome
    (fst (run (transcribe Sample.user_1 Sample.long_200) Sample.one_pending))
  = Some SubmitterQueued /\
  verdict_of_outcome
    (fst (run (transcribe Sample.user_1 Sample.long_200) Sample.one_pending))
  <> Some (verdict_in_spec_order Sample.user_1 Sample.long_200 Sample.one_pending).
Proof.
  repeat split; try reflexivity.
  vm_compute. discriminate.
Qed.

(** * The result cache *)

Lemma select_one_where_some {R : Type} (p : R -> bool) (t : Table R) (r0 : R) :
  In r0 (rows t) -> p r0 = true ->
  exists r, select_one_where p t = Some r /\ In r (rows t) /\ p r = true.
Proof.
  intros Hin Hp. unfold select_one_where.
  assert (Hf : In r0 (filter p (rows t))) by (apply filter_In; tauto).
  destruct (filter p (rows t)) as [|r l] eqn:E; [contradiction|].
  exists r. split; [reflexivity|].
  assert (Hr : In r (filter p (rows t))) by (rewrite E; now left).
  apply filter_In in Hr. exact Hr.
Qed.

Lemma select_one_where_none {R : Type} (p : R -> bool) (t : Table R) :
  select_one_where p t = None <-> forall r, In r (rows t) -> p r = false.
Proof.
  unfold select_one_where. split.
  - intros Hn r Hr. destruct (p r) eqn:E; [|reflexivity].
    assert (Hf : In r (filter p (rows t))) by (apply filter_In; tauto).
    destruct (filter p (rows t)); [contradiction|discriminate].
  - intros Hall. destruct (filter p (rows t)) as [|r l] eqn:E; [reflexivity|].
    assert (Hr : In r (filter p (rows t))) by (rewrite E; now left).
    apply filter_In in Hr. destruct Hr as [Hr Hp]. rewrite (Hall r Hr) in Hp. discriminate.
Qed.

(** C4. When the submission passes the validation and the two duplicate
    checks and the cache holds a result for the message and its channel, the
    handler answers with the embed of a stored result of that pair, the one
    the lookup returns: the embed refers to the message and carries the text
    of the result (the "no transcription" description when the text is
    empty), the id of the result and its creation time; and the bot, its
    queue included, is left as it was. *)
Theorem C4_cached_result_is_served_without_enqueue
    (ctx : Discord.Context) (message : Discord.Message) (b : Bot)
    (d : Q) (r0 : Transcription.t) :
  voice_note_ok message = true ->
  submitter_queued ctx b = false ->
  source_queued message b = false ->
  first_duration message = Some d -> longer_than_60 d = false ->
  In r0 (rows (transcriptions (database b))) ->
  Transcription.message_id r0 = Discord.id message ->
  Transcription.channel_id r0 = Discord.channel_id message ->
  exists r body,
    In r (rows (transcriptions (database b))) /\
    Transcription.message_id r = Discord.id message /\
    Transcription.channel_id r = Discord.channel_id message /\
    cached message b = Some r /\
    (Transcription.text r <> ""%string -> body = Some (Transcription.text r)) /\
    (Transcription.text r = ""%string -> body = None) /\
    run (transcribe ctx message) b
    = (Responded (TranscribedEmbed (Discord.id message) body
                    (Transcription.id r) (Transcription.created_at r)) false, b) /\
    queue (database (snd (run (transcribe ctx message) b))) = queue (database b).
Proof.
  intros Hv Hs Hm Hd Hl Hin Hmid Hcid.
  destruct (select_one_where_some
              (fun r => (Transcription.message_id r =? Discord.id message)
                        && (Transcription.channel_id r =? Discord.channel_id message))
              (transcriptions (database b)) r0 Hin) as (r & Hsel & Hr & Hp).
  { rewrite Hmid, Hcid, !Z.eqb_refl. reflexivity. }
  apply andb_true_iff in Hp. destruct Hp as [Hp1 Hp2].
  apply Z.eqb_eq in Hp1, Hp2.
  assert (Hc : cached message b = Some r) by exact Hsel.
  assert (Hrun : run (transcribe ctx message) b
                 = (Responded (TranscribedEmbed (Discord.id message)
                                 (match Transcription.text r with
                                  | EmptyString => None
                                  | _ => Some (Transcription.text r)
                                  end)
                                 (Transcription.id r) (Transcription.created_at r))
                              false, b)).
  { handler_branch. }
  exists r, (match Transcription.text r with
             | EmptyString => None
             | _ => Some (Transcription.text r)
             end).
  split; [exact Hr|]. split; [exact Hp1|]. split; [exact Hp2|]. split; [exact Hc|].
  split; [destruct (Transcription.text r); [intros H; now contradiction H|reflexivity]|].
  split; [intros ->; reflexivity|].
  split; [exact Hrun|]. now rewrite Hrun.
Qed.

(** Message 100 has the result "hello", with id 1 and created at 1000, in
    the cache; user 1 asks for it. *)
Lemma C4_cached_result_witness :
  run (transcribe Sample.user_1 Sample.voice_100) Sample.with_result
  = (Responded (TranscribedEmbed 100 (Some "hello"%string) 1 1000) false,
     Sample.with_result).
Proof.
  destruct (C4_cached_result_is_served_without_enqueue
              Sample.user_1 Sample.voice_100 Sample.with_result (5 # 1)
              (Transcription.mk 1 100 9 "hello" 1000)
              eq_refl eq_refl eq_refl eq_refl eq_refl
              (or_introl eq_refl) eq_refl eq_refl)
    as (r & body & Hin & _ & _ & _ & Hsome & _ & Hrun & _).
  destruct Hin as [<-|[]].
  rewrite Hrun, (Hsome ltac:(discriminate)). reflexivity.
Defined.

(** C8. A sweep with a retention of [days] days keeps exactly the results
    whose creation time is not below [now - days * 86400] and touches nothing
    else; the default is 7 days, the loop runs every 3 hours, and of two
    results created 8 days and 1 day ago the default sweep deletes the first
    and keeps the second. *)
Theorem C8_sweep_deletes_exactly_the_outdated_results
    (now days : Z) (db : Database) (b : Bot) (old recent : Transcription.t) :
  (forall r, In r (rows (transcriptions (delete_outdated now days db))) <->
             In r (rows (transcriptions db)) /\
             ~ Transcription.created_at r < now - days * 86400) /\
  queue (delete_outdated now days db) = queue db /\
  task_available (delete_outdated now days db) = task_available db /\
  seq (transcriptions (delete_outdated now days db)) = seq (transcriptions db) /\
  delete_outdated_default_days = 7 /\
  delete_outdated_loop_hours = 3 /\
  database (bot_delete_outdated now b) = delete_outdated now 7 (database b) /\
  (Transcription.created_at old = now - 8 * 86400 ->
   Transcription.created_at recent = now - 1 * 86400 ->
   rows (transcriptions (database b)) = [old; recent] ->
   rows (transcriptions (database (bot_delete_outdated now b))) = [recent]).
Proof.
  split; [|repeat split].
  - intros r. unfold delete_outdated, delete_where; simpl.
    rewrite filter_In, negb_true_iff, Z.ltb_ge. intuition lia.
  - intros Hold Hrecent Hrows.
    unfold bot_delete_outdated, delete_outdated, delete_where, delete_outdated_default_days.
    cbn [database transcriptions with_database with_transcriptions rows].
    rewrite Hrows. cbn [filter]. rewrite Hold, Hrecent.
    assert (E1 : (now - 8 * 86400 <? now - 7 * 86400) = true) by (apply Z.ltb_lt; lia).
    assert (E2 : (now - 1 * 86400 <? now - 7 * 86400) = false) by (apply Z.ltb_ge; lia).
    rewrite E1, E2. reflexivity.
Qed.

(** The clock reads 1 000 000; one result is 8 days old, the other 1 day. *)
Lemma C8_sweep_witness :
  let now := 1000000 in
  let old := Transcription.mk 1 100 9 "old" (now - 8 * 86400) in
  let recent := Transcription.mk 2 101 9 "recent" (now - 1 * 86400) in
  let b := on_start Sample.nobody empty_table (mkTable [old; recent] 2) in
  rows (transcriptions (database (bot_delete_outdated now b))) = [recent].
Proof.
  intros now old recent b.
  apply (proj2 (proj2 (proj2 (proj2 (proj2 (proj2 (proj2
           (C8_sweep_deletes_exactly_the_outdated_results
              now 7 (database b) b old recent))))))));
    reflexivity.
Defined.

(** * The worker *)

Lemma get_loop_returned (fuel : nat) (j : Job.t) (db : Database) :
  get_loop fuel (Returned j) db = (Returned j, db).
Proof. destruct fuel; reflexivity. Qed.

(** Parked on a cleared event the coroutine does not move. *)
Lemma get_loop_parked (fuel : nat) (db : Database) :
  task_available db = false -> get_loop fuel Suspended db = (Suspended, db).
Proof. intros He. destruct fuel; simpl; [reflexivity|]. now rewrite He. Qed.

(** On an empty queue the loop never returns, however long it runs alone. *)
Lemma get_loop_empty (fuel : nat) (pc : GetPc) (db : Database) :
  rows (queue db) = [] -> empty_handed pc ->
  empty_handed (fst (get_loop fuel pc db)) /\
  queue (snd (get_loop fuel pc db)) = queue db.
Proof.
  revert pc db. induction fuel as [|fuel IH]; intros pc db Hrows Hpc; simpl; [tauto|].
  destruct pc; simpl in Hpc; try contradiction; simpl.
  - assert (Hsel : select_first_by_id (queue db) = None)
      by now apply select_first_by_id_none.
    rewrite Hsel. now apply IH.
  - destruct (task_available db); [|now apply IH].
    destruct (IH AtSelect (clear_event db) Hrows I) as [H1 H2]. now split.
  - destruct (task_available db); [|simpl; tauto].
    destruct (IH AtSelect (clear_event db) Hrows I) as [H1 H2]. now split.
Qed.

(** What [get()] returns is the oldest row, and that row's id is deleted. *)
Lemma get_returned (fuel : nat) (db db' : Database) (j : Job.t) :
  get fuel db = (Returned j, db') ->
  select_first_by_id (queue db) = Some j /\
  db' = with_queue (delete_where (fun r => Job.id r =? Job.id j) (queue db)) db.
Proof.
  unfold get. destruct fuel as [|fuel]; simpl; [discriminate|].
  destruct (select_first_by_id (queue db)) as [j0|] eqn:Hsel.
  - destruct fuel as [|fuel]; simpl; [discriminate|].
    rewrite get_loop_returned. intros [= <- <-]. now split.
  - intros Hget. apply select_first_by_id_none in Hsel.
    destruct (get_loop_empty fuel AtWait db Hsel I) as [Hpc _].
    rewrite Hget in Hpc. contradiction.
Qed.

Lemma deleted_by_id_is_gone (j : Job.t) (q : Table Job.t) :
  ~ In j (rows (delete_where (fun r => Job.id r =? Job.id j) q)).
Proof.
  unfold delete_where; simpl. rewrite filter_In, Z.eqb_refl. simpl. intros [_ H]. discriminate.
Qed.

(** C9. When the channel cannot be resolved or the message is not found,
    the iteration ends with [continue]: nothing is stored, no reply is sent,
    nothing is raised, and the job that [get()] removed stays out of the
    queue. *)
Theorem C9_stale_job_is_dropped_silently
    (env : Env) (fuel : nat) (b : Bot) (db' : Database) (j : Job.t) :
  get fuel (database b) = (Returned j, db') ->
  stale env j ->
  let b1 := count_down (with_database db' b) in
  run (process_queue_iteration env j) b1 = (Continue None, b1) /\
  transcriptions (database b1) = transcriptions (database b) /\
  ~ In j (rows (queue (database b1))).
Proof.
  intros Hget Hstale b1.
  apply get_returned in Hget. destruct Hget as [_ ->].
  repeat split.
  - unfold process_queue_iteration.
    destruct Hstale as [->|(channel & -> & ->)]; reflexivity.
  - apply deleted_by_id_is_gone.
Qed.

(** Job 1 of message 100 is dequeued and the message has been deleted. *)
Lemma C9_stale_job_witness :
  let env := mkEnv (fun c => Some c) (fun _ _ => NotFound) (fun _ => Text "hello") 1000
                   (fun _ => Delivered) in
  let j := Job.mk 1 1 100 9 "en-US" in
  let db' := snd (get 2 (database Sample.one_pending)) in
  let b1 := count_down (with_database db' Sample.one_pending) in
  get 2 (database Sample.one_pending) = (Returned j, db') /\
  stale env j /\
  run (process_queue_iteration env j) b1 = (Continue None, b1).
Proof.
  intros env j db' b1.
  assert (Hget : get 2 (database Sample.one_pending) = (Returned j, db')) by reflexivity.
  assert (Hstale : stale env j) by (right; exists 9; split; reflexivity).
  split; [exact Hget|]. split; [exact Hstale|].
  exact (proj1 (C9_stale_job_is_dropped_silently env 2 Sample.one_pending db' j Hget Hstale)).
Defined.

(** * Invariants of the bot when handlers run one at a time *)

Lemma bool_of_int_false (n : Z) : Py.bool_of_int n = false <-> n = 0.
Proof. unfold Py.bool_of_int. rewrite negb_false_iff. apply Z.eqb_eq. Qed.

(** A handler either leaves the bot as it was or has passed the two
    duplicate checks, missed the cache and enqueued. *)
Lemma snd_run_transcribe (ctx : Discord.Context) (message : Discord.Message) (b : Bot) :
  snd (run (transcribe ctx message) b) = b \/
  (submitter_queued ctx b = false /\ source_queued message b = false /\
   cached message b = None /\
   snd (run (transcribe ctx message) b) = enqueued ctx message b).
Proof.
  rewrite run_transcribe.
  destruct (negb (voice_note_ok message)); [now left|].
  destruct (submitter_queued ctx b); [now left|].
  destruct (source_queued message b); [now left|].
  destruct (Discord.attachments message) as [|a ?]; [now left|].
  destruct (Discord.duration_secs a) as [d|]; [|now left].
  destruct (longer_than_60 d); [now left|].
  destruct (cached message b); [now left|].
  right. auto.
Qed.

(** The iteration after [get()] changes at most the cache, by one insert. *)
Lemma snd_run_process_queue_iteration (env : Env) (j : Job.t) (b : Bot) :
  snd (run (process_queue_iteration env j) b) = b \/
  exists text,
    snd (run (process_queue_iteration env j) b)
    = with_database
        (snd (add_transcription (Job.message_id j) (Job.channel_id j) text
                                (clock env) (database b)))
        b.
Proof.
  unfold process_queue_iteration.
  destruct (get_or_fetch_channel env (Job.channel_id j)) as [channel|]; [|now left].
  destruct (fetch_message env channel (Job.message_id j)) as [message| |exn];
    try (now left).
  destruct (Discord.attachments message) as [|a ?]; [now left|].
  destruct (transcribe_audiobytes env a) as [transcribed|exn]; [|now left].
  right. exists transcribed. simpl. destruct (reply env message); reflexivity.
Qed.

Lemma queue_insert_job (u m c : Z) (l : string) (db : Database) :
  queue (insert_job u m c l db) = snd (insert (fun i => Job.mk i u m c l) (queue db)).
Proof. reflexivity. Qed.

Lemma count_all_insert_job (u m c : Z) (l : string) (db : Database) :
  get_queue_size (insert_job u m c l db) = get_queue_size db + 1.
Proof.
  unfold get_queue_size. rewrite queue_insert_job.
  exact (count_where_insert (fun _ => true) _ (queue db)).
Qed.

Lemma count_source_insert_job (u m c : Z) (l : string) (db : Database) (m' : Z) :
  count_where (fun j => Job.message_id j =? m') (queue (insert_job u m c l db))
  = count_where (fun j => Job.message_id j =? m') (queue db)
    + (if m =? m' then 1 else 0).
Proof.
  rewrite queue_insert_job.
  exact (count_where_insert (fun j => Job.message_id j =? m') _ (queue db)).
Qed.

Lemma count_submitter_insert_job (u m c : Z) (l : string) (db : Database) (u' : Z) :
  count_where (fun j => Job.user_id j =? u') (queue (insert_job u m c l db))
  = count_where (fun j => Job.user_id j =? u') (queue db)
    + (if u =? u' then 1 else 0).
Proof.
  rewrite queue_insert_job.
  exact (count_where_insert (fun j => Job.user_id j =? u') _ (queue db)).
Qed.

Lemma delete_one_length (l : list Job.t) (j : Job.t) :
  StronglySorted Z.lt (map Job.id l) -> In j l ->
  S (List.length (filter (fun r => negb (Job.id r =? Job.id j)) l)) = List.length l.
Proof.
  induction l as [|x l IH]; simpl; intros Hs Hin; [contradiction|].
  inversion Hs as [|? ? Hs' Hx]; subst. rewrite Forall_forall in Hx.
  destruct Hin as [->|Hin].
  - rewrite Z.eqb_refl. simpl. do 2 f_equal. apply filter_all.
    intros r Hr. specialize (Hx (Job.id r) (in_map _ _ _ Hr)).
    destruct (Z.eqb_spec (Job.id r) (Job.id j)); [lia|reflexivity].
  - specialize (Hx (Job.id j) (in_map _ _ _ Hin)).
    destruct (Z.eqb_spec (Job.id x) (Job.id j)); [lia|]. simpl. f_equal. now apply IH.
Qed.

(** Deleting a queued job by its id makes the queue one shorter. *)
Lemma queue_size_after_delete (db : Database) (j : Job.t) :
  table_wf (queue db) -> In j (rows (queue db)) ->
  get_queue_size
    (with_queue (delete_where (fun r => Job.id r =? Job.id j) (queue db)) db)
  = get_queue_size db - 1.
Proof.
  intros Hwf Hin. unfold get_queue_size, count_where.
  cbn [queue with_queue delete_where rows].
  rewrite (filter_all (fun _ => true) (rows (queue db))) by reflexivity.
  rewrite (filter_all (fun _ => true)) by reflexivity.
  pose proof (delete_one_length (rows (queue db)) j Hwf Hin) as Hlen.
  cbv beta. lia.
Qed.

(** What one step of the [get()] loop does. *)
Lemma get_step_cases (pc pc' : GetPc) (db db' : Database) :
  get_step pc db = Some (pc', db') ->
  (pc = AtSelect /\ db' = db /\
   ((exists j, pc' = AtDelete j /\ select_first_by_id (queue db) = Some j) \/
    (pc' = AtWait /\ rows (queue db) = []))) \/
  (exists j, pc = AtDelete j /\ pc' = Returned j /\
             db' = with_queue (delete_where (fun r => Job.id r =? Job.id j) (queue db)) db) \/
  ((pc = AtWait \/ pc = Suspended) /\ (pc' = AtSelect \/ pc' = Suspended) /\
   queue db' = queue db /\ transcriptions db' = transcriptions db).
Proof.
  destruct pc as [|j| | |j]; simpl.
  - destruct (select_first_by_id (queue db)) as [j|] eqn:Hsel; intros [= <- <-]; left.
    + repeat split. left. now exists j.
    + repeat split. right. split; [reflexivity|]. now apply select_first_by_id_none.
  - intros [= <- <-]. right. left. now exists j.
  - destruct (task_available db); intros [= <- <-]; right; right; repeat split; auto.
  - destruct (task_available db); [|discriminate].
    intros [= <- <-]; right; right; repeat split; auto.
  - discriminate.
Qed.

Lemma queue_inv_frame (w w' : World) :
  is_owner (bot w') = is_owner (bot w) ->
  queue (database (bot w')) = queue (database (bot w)) ->
  queue_size (bot w') - counter_ahead (worker w')
  = queue_size (bot w) - counter_ahead (worker w) ->
  (forall j, worker w' = Getting (AtDelete j) ->
             In j (rows (queue (database (bot w))))) ->
  queue_inv w -> queue_inv w'.
Proof.
  unfold queue_inv, one_job_per_source, one_job_per_submitter, get_queue_size.
  intros Ho Hq Hc Hd (Hwf & Hsync & Hsrc & Hsub & _).
  rewrite Ho, Hq. repeat split; auto. lia.
Qed.

Lemma queue_inv_same_worker (w w' : World) :
  is_owner (bot w') = is_owner (bot w) ->
  queue (database (bot w')) = queue (database (bot w)) ->
  queue_size (bot w') = queue_size (bot w) ->
  worker w' = worker w ->
  queue_inv w -> queue_inv w'.
Proof.
  intros Ho Hq Hn Hw Hinv.
  apply (queue_inv_frame w w' Ho Hq); [now rewrite Hn, Hw| |exact Hinv].
  rewrite Hw. apply Hinv.
Qed.

Lemma enqueued_queue_inv (ctx : Discord.Context) (message : Discord.Message) (w : World) :
  submitter_queued ctx (bot w) = false -> source_queued message (bot w) = false ->
  queue_inv w -> queue_inv (mkWorld (enqueued ctx message (bot w)) (worker w)).
Proof.
  intros Hs Hm (Hwf & Hsync & Hsrc & Hsub & Hdel).
  unfold queue_inv, one_job_per_source, one_job_per_submitter in *.
  unfold enqueued, add_to_queue; cbn [bot worker database queue_size is_owner
    with_queue_size with_database].
  change (queue (set_event ?x)) with (queue x).
  change (get_queue_size (set_event ?x)) with (get_queue_size x).
  split; [now apply insert_job_wf|]. split; [|split; [|split]].
  - rewrite count_all_insert_job. lia.
  - intros m'. rewrite count_source_insert_job.
    destruct (Z.eqb_spec (Discord.id message) m') as [<-|_]; [|specialize (Hsrc m'); lia].
    unfold source_queued, message_in_queue in Hm. apply bool_of_int_false in Hm. lia.
  - intros u' Hu'. rewrite count_submitter_insert_job.
    destruct (Z.eqb_spec (Discord.author_id ctx) u') as [<-|_];
      [|specialize (Hsub u' Hu'); lia].
    unfold submitter_queued in Hs. rewrite Hu' in Hs. simpl in Hs.
    unfold user_in_queue in Hs. apply bool_of_int_false in Hs. lia.
  - intros j Hj. rewrite insert_job_rows. apply in_or_app. left. now apply Hdel.
Qed.

Section SerialInvariants.
Variable admissible : World -> Discord.Message -> Prop.

Lemma step_queue_inv (w w' : World) :
  step admissible w w' -> queue_inv w -> queue_inv w'.
Proof.
  intros Hstep Hinv.
  destruct Hstep as [ctx message _|pc pc' db' Hw Hget|j Hw|env j Hw|now|].
  - destruct (snd_run_transcribe ctx message (bot w)) as [E|(Hs & Hm & _ & E)];
      rewrite E; [|now apply enqueued_queue_inv].
    revert Hinv. now apply queue_inv_same_worker.
  - destruct (get_step_cases pc pc' (database (bot w)) db' Hget)
      as [(-> & -> & Hpc')|[(j & -> & -> & ->)|(Hpc & Hpc' & Hq & _)]].
    + revert Hinv. apply queue_inv_frame; cbn [bot worker database with_database
        queue_size is_owner]; auto.
      * rewrite Hw. destruct Hpc' as [(j & -> & _)|(-> & _)]; reflexivity.
      * intros j [= ->].
        destruct Hpc' as [(j0 & [= <-] & Hsel)|([=] & _)].
        now apply select_first_by_id_min in Hsel.
    + destruct Hinv as (Hwf & Hsync & Hsrc & Hsub & Hdel).
      specialize (Hdel j Hw). rewrite Hw in Hsync. simpl in Hsync.
      unfold queue_inv, one_job_per_source, one_job_per_submitter in *.
      cbn [bot worker database with_database queue_size is_owner counter_ahead].
      split; [now apply delete_where_wf|]. split; [|split; [|split]].
      * rewrite queue_size_after_delete by assumption. lia.
      * intros m. etransitivity; [apply count_where_delete_le|apply Hsrc].
      * intros u Hu. etransitivity; [apply count_where_delete_le|now apply Hsub].
      * intros j0 H; discriminate H.
    + revert Hinv. apply queue_inv_frame; cbn [bot worker database with_database
        queue_size is_owner]; auto.
      * rewrite Hw. destruct Hpc as [-> | ->], Hpc' as [-> | ->]; reflexivity.
      * intros j E. destruct Hpc' as [-> | ->]; discriminate E.
  - revert Hinv. apply queue_inv_frame; cbn [bot worker count_down with_queue_size
      database queue_size is_owner]; auto.
    + rewrite Hw. simpl. lia.
    + intros j0 H; discriminate H.
  - assert (Hnext : counter_ahead
                      (next_worker (fst (run (process_queue_iteration env j) (bot w)))) = 0
                    /\ forall j0,
                      next_worker (fst (run (process_queue_iteration env j) (bot w)))
                      <> Getting (AtDelete j0)).
    { destruct (fst (run (process_queue_iteration env j) (bot w))); simpl;
        split; auto; discriminate. }
    destruct Hnext as [Hzero Hnot].
    destruct (snd_run_process_queue_iteration env j (bot w)) as [E|[text E]];
      rewrite E; revert Hinv; apply queue_inv_frame; cbn [bot worker]; auto;
      try (rewrite Hzero, Hw; reflexivity);
      try (intros j0 H; now apply Hnot in H).
  - revert Hinv. now apply queue_inv_same_worker.
  - destruct Hinv as (Hwf & _ & Hsrc & Hsub & _).
    unfold queue_inv. cbn [bot worker counter_ahead].
    split; [exact Hwf|]. split; [simpl; lia|]. split; [exact Hsrc|].
    split; [exact Hsub|]. intros j H; discriminate H.
Qed.

Lemma reachable_queue_inv (w : World) :
  reachable admissible w -> queue_inv w.
Proof.
  induction 1 as [owners|w w' _ IH Hstep].
  - unfold queue_inv, one_job_per_source, one_job_per_submitter.
    simpl. split; [unfold table_wf; simpl; constructor|].
    repeat split; try (intros; unfold count_where; simpl; lia).
    intros j H; discriminate H.
  - now apply (step_queue_inv w w').
Qed.

End SerialInvariants.

(** * Invariants of the cache *)

Lemma no_result_for_count (j : Job.t) (b : Bot) :
  no_result_for j b <->
  count_where (same_source (Job.message_id j) (Job.channel_id j))
              (transcriptions (database b)) = 0.
Proof.
  unfold no_result_for, get_transcription.
  rewrite select_one_where_none, count_where_zero. reflexivity.
Qed.

Lemma count_where_delete_lt {R : Type} (p q : R -> bool) (t : Table R) (r : R) :
  In r (rows t) -> p r = true -> q r = true ->
  count_where p (delete_where q t) < count_where p t.
Proof.
  unfold count_where, delete_where; simpl.
  induction (rows t) as [|x l IH]; simpl; [contradiction|].
  intros [->|Hin] Hp Hq.
  - rewrite Hq, Hp; simpl.
    pose proof (count_where_delete_le p q (mkTable l 0)) as Hle.
    unfold count_where, delete_where in Hle; simpl in Hle. lia.
  - specialize (IH Hin Hp Hq).
    destruct (q x); simpl; destruct (p x); simpl; lia.
Qed.

Lemma count_where_positive {R : Type} (p : R -> bool) (t : Table R) (r : R) :
  In r (rows t) -> p r = true -> 1 <= count_where p t.
Proof.
  intros Hin Hp.
  destruct (Z.eq_dec (count_where p t) 0) as [E|E].
  - rewrite count_where_zero in E. rewrite (E r Hin) in Hp. discriminate.
  - pose proof (count_where_nonneg p t). lia.
Qed.

Lemma count_source_add_transcription (m c : Z) (text : string) (now : Z)
    (db : Database) (m' c' : Z) :
  count_where (same_source m' c')
    (transcriptions (snd (add_transcription m c text now db)))
  = count_where (same_source m' c') (transcriptions db)
    + (if (m =? m') && (c =? c') then 1 else 0).
Proof.
  change (transcriptions (snd (add_transcription m c text now db)))
    with (snd (insert (fun i => Transcription.mk i m c text now) (transcriptions db))).
  exact (count_where_insert (same_source m' c')
           (fun i => Transcription.mk i m c text now) (transcriptions db)).
Qed.

Lemma no_result_for_sweep (j : Job.t) (now : Z) (b : Bot) :
  no_result_for j b -> no_result_for j (bot_delete_outdated now b).
Proof.
  rewrite !no_result_for_count. intros H0.
  pose proof (count_where_delete_le
                (same_source (Job.message_id j) (Job.channel_id j))
                (fun r => Transcription.created_at r <? now - 7 * 86400)
                (transcriptions (database b))) as Hle.
  pose proof (count_where_nonneg
                (same_source (Job.message_id j) (Job.channel_id j))
                (delete_where (fun r => Transcription.created_at r <? now - 7 * 86400)
                              (transcriptions (database b)))) as Hge.
  cbn [bot_delete_outdated database with_database delete_outdated with_transcriptions
       transcriptions].
  unfold delete_outdated_default_days. lia.
Qed.

Lemma holds_getting (pc : GetPc) (j : Job.t) :
  holds (Getting pc) j <-> pc = Returned j.
Proof.
  unfold holds. split.
  - intros [[= ->]|H]; [reflexivity|discriminate H].
  - intros ->. now left.
Qed.

(** The cache invariant looks at the two tables and at the job in flight. *)
Lemma cache_inv_frame (w w' : World) :
  queue (database (bot w')) = queue (database (bot w)) ->
  transcriptions (database (bot w')) = transcriptions (database (bot w)) ->
  (forall j, holds (worker w') j -> holds (worker w) j) ->
  cache_inv w -> cache_inv w'.
Proof.
  unfold cache_inv, one_result_per_source, no_result_for, get_transcription,
    message_in_queue.
  intros Hq Ht Hh (Hone & Hqueue & Hflight).
  rewrite Hq, Ht. repeat split; auto; apply Hflight; auto.
Qed.

Lemma step_cache_inv (w w' : World) :
  step not_in_flight w w' -> queue_inv w -> cache_inv w -> cache_inv w'.
Proof.
  intros Hstep (Hwf & _ & Hsrc & _ & Hdel) Hinv.
  pose proof Hinv as (Hone & Hq & Hf).
  destruct Hstep as [ctx message Hguard|pc pc' db' Hw Hget|j Hw|env j Hw|now|].
  - destruct (snd_run_transcribe ctx message (bot w)) as [E|(_ & Hm & Hc & E)];
      rewrite E; clear E; [revert Hinv; now apply cache_inv_frame|].
    unfold cache_inv; cbn [bot worker].
    split; [exact Hone|]. split.
    + intros j Hj. unfold enqueued, add_to_queue in Hj.
      cbn [database with_queue_size with_database set_event with_task_available queue] in Hj.
      rewrite insert_job_rows in Hj. apply in_app_or in Hj.
      destruct Hj as [Hj|[<-|[]]]; [exact (Hq j Hj)|exact Hc].
    + intros j Hj. destruct (Hf j Hj) as [Hnone Hmq]. split; [exact Hnone|].
      specialize (Hguard j Hj).
      unfold message_in_queue in *. apply bool_of_int_false in Hmq.
      apply bool_of_int_false.
      unfold enqueued, add_to_queue.
      cbn [database with_queue_size with_database set_event with_task_available queue].
      rewrite count_source_insert_job, Hmq.
      destruct (Z.eqb_spec (Discord.id message) (Job.message_id j)); [congruence|lia].
  - destruct (get_step_cases pc pc' (database (bot w)) db' Hget)
      as [(-> & -> & Hpc')|[(j & -> & -> & ->)|(Hpc & Hpc' & Hqueue & Htr)]].
    + revert Hinv. apply cache_inv_frame; auto. cbn [worker].
      intros j Hj. apply holds_getting in Hj.
      destruct Hpc' as [(j0 & -> & _)|(-> & _)]; discriminate Hj.
    + specialize (Hdel j Hw).
      unfold cache_inv; cbn [bot worker].
      split; [exact Hone|]. split.
      * intros j' Hj'. apply (Hq j').
        cbn [with_database database with_queue queue delete_where rows] in Hj'.
        apply filter_In in Hj'. tauto.
      * intros j0 Hj0. apply holds_getting in Hj0. injection Hj0 as <-.
        split; [exact (Hq j Hdel)|].
        unfold message_in_queue. apply bool_of_int_false.
        cbn [with_database database with_queue queue].
        pose proof (count_where_delete_lt
                      (fun r => Job.message_id r =? Job.message_id j)
                      (fun r => Job.id r =? Job.id j)
                      (queue (database (bot w))) j Hdel (Z.eqb_refl _) (Z.eqb_refl _))
          as Hlt.
        pose proof (count_where_nonneg
                      (fun r => Job.message_id r =? Job.message_id j)
                      (delete_where (fun r => Job.id r =? Job.id j)
                                    (queue (database (bot w))))) as Hge.
        specialize (Hsrc (Job.message_id j)). lia.
    + revert Hinv. apply cache_inv_frame; auto. cbn [worker].
      intros j Hj. apply holds_getting in Hj.
      destruct Hpc' as [-> | ->]; discriminate Hj.
  - revert Hinv. apply cache_inv_frame; auto. cbn [worker].
    intros j0 [H|[= <-]]; [discriminate H|]. left. exact Hw.
  - assert (Hnext : forall j0,
              ~ holds (next_worker (fst (run (process_queue_iteration env j) (bot w)))) j0).
    { intros j0. destruct (fst (run (process_queue_iteration env j) (bot w)));
        intros [H|H]; discriminate H. }
    destruct (Hf j (or_intror Hw)) as [Hnone Hmq].
    destruct (snd_run_process_queue_iteration env j (bot w)) as [E|[text E]];
      rewrite E; clear E.
    + revert Hinv. apply cache_inv_frame; auto. cbn [worker].
      intros j0 Hj0. now apply Hnext in Hj0.
    + apply no_result_for_count in Hnone.
      unfold message_in_queue in Hmq. apply bool_of_int_false in Hmq.
      rewrite count_where_zero in Hmq.
      unfold cache_inv; cbn [bot worker].
      split; [|split].
      * intros m c. cbn [database with_database].
        rewrite count_source_add_transcription.
        destruct ((Job.message_id j =? m) && (Job.channel_id j =? c)) eqn:E;
          [|specialize (Hone m c); lia].
        apply andb_true_iff in E. destruct E as [E1 E2].
        apply Z.eqb_eq in E1, E2. subst m c. lia.
      * intros j' Hj'. apply no_result_for_count. cbn [database with_database].
        rewrite count_source_add_transcription.
        assert (Hq' : In j' (rows (queue (database (bot w))))) by exact Hj'.
        pose proof (proj1 (no_result_for_count j' (bot w)) (Hq j' Hq')) as H0.
        specialize (Hmq j' Hq'). simpl in Hmq. rewrite Z.eqb_sym in Hmq.
        rewrite Hmq. simpl. lia.
      * intros j0 Hj0. now apply Hnext in Hj0.
  - unfold cache_inv; cbn [bot worker]. split; [|split].
    + intros m c. etransitivity; [|apply (Hone m c)].
      apply count_where_delete_le.
    + intros j Hj. apply no_result_for_sweep. exact (Hq j Hj).
    + intros j Hj. destruct (Hf j Hj) as [Hnone Hmq].
      split; [now apply no_result_for_sweep|exact Hmq].
  - revert Hinv. apply cache_inv_frame; auto. cbn [worker].
    intros j Hj. apply holds_getting in Hj. discriminate Hj.
Qed.

Lemma reachable_cache_inv (w : World) :
  reachable not_in_flight w -> cache_inv w.
Proof.
  induction 1 as [owners|w w' Hreach IH Hstep].
  - unfold cache_inv, one_result_per_source, no_result_for. simpl.
    split; [intros; unfold count_where; simpl; lia|].
    split; [intros j []|].
    intros j Hj. apply holds_getting in Hj. discriminate Hj.
  - apply (step_cache_inv w w' Hstep); [|exact IH].
    now apply (reachable_queue_inv not_in_flight).
Qed.

(** * Duplicate submissions *)

(** Whoever has the job pending, another submission of the same submitter
    and source is rejected as a duplicate and changes nothing. *)
Lemma pending_pair_is_rejected
    (ctx : Discord.Context) (message : Discord.Message) (b : Bot) (j : Job.t) :
  In j (rows (queue (database b))) ->
  Job.user_id j = Discord.author_id ctx ->
  Job.message_id j = Discord.id message ->
  voice_note_ok message = true ->
  (run (transcribe ctx message) b
   = (Responded (make_error_embed "transcribe.user-in-queue") true, b) \/
   run (transcribe ctx message) b
   = (Responded (make_error_embed "transcribe.message-in-queue") true, b)).
Proof.
  intros Hin Hu Hm Hv.
  assert (Hsrc : source_queued message b = true).
  { unfold source_queued, message_in_queue, Py.bool_of_int.
    rewrite negb_true_iff, Z.eqb_neq.
    assert (Hp : (Job.message_id j =? Discord.id message) = true)
      by (rewrite Hm; apply Z.eqb_refl).
    pose proof (count_where_positive (fun r => Job.message_id r =? Discord.id message)
                  (queue (database b)) j Hin Hp) as Hpos.
    lia. }
  destruct (submitter_queued ctx b) eqn:Hs; [left|right]; handler_branch.
Qed.

(** C3, for handlers that run one at a time.  In every state the bot
    reaches, a submitter who is not an owner has at most one job in the
    queue and a source message has at most one; a second submission of a
    pair whose job is pending is rejected as a duplicate and enqueues
    nothing. *)
Theorem C3_one_job_per_submitter_and_source_when_handlers_take_turns
    (w : World) (ctx : Discord.Context) (message : Discord.Message) (j : Job.t) :
  reachable any_submission w ->
  one_job_per_submitter (bot w) /\
  one_job_per_source (bot w) /\
  (In j (rows (queue (database (bot w)))) ->
   Job.user_id j = Discord.author_id ctx ->
   Job.message_id j = Discord.id message ->
   voice_note_ok message = true ->
   (fst (run (transcribe ctx message) (bot w))
    = Responded (make_error_embed "transcribe.user-in-queue") true \/
    fst (run (transcribe ctx message) (bot w))
    = Responded (make_error_embed "transcribe.message-in-queue") true) /\
   snd (run (transcribe ctx message) (bot w)) = bot w).
Proof.
  intros Hreach.
  destruct (reachable_queue_inv any_submission w Hreach) as (_ & _ & Hsrc & Hsub & _).
  split; [exact Hsub|]. split; [exact Hsrc|].
  intros Hin Hu Hm Hv.
  destruct (pending_pair_is_rejected ctx message (bot w) j Hin Hu Hm Hv) as [E|E];
    rewrite E; simpl; auto.
Qed.

(** The sample runs are runs of the transition system. *)
Lemma submit_reachable (ctx : Discord.Context) (message : Discord.Message) (w : World) :
  reachable any_submission w -> reachable any_submission (Run.submit ctx message w).
Proof.
  intros Hreach. apply (@reachable_step any_submission w _ Hreach).
  apply step_submit. exact I.
Qed.

Section Runs.
Variable admissible : World -> Discord.Message -> Prop.

Lemma work_reachable (env : Env) (w : World) :
  reachable admissible w -> reachable admissible (Run.work env w).
Proof.
  intros Hreach. unfold Run.work.
  destruct (worker w) as [pc|j|] eqn:Hw; [|
    apply (@reachable_step admissible w _ Hreach); now apply step_finish|exact Hreach].
  assert (Hget : reachable admissible
                   match get_step pc (database (bot w)) with
                   | Some (pc', db') => mkWorld (with_database db' (bot w)) (Getting pc')
                   | None => w
                   end).
  { destruct (get_step pc (database (bot w))) as [[pc' db']|] eqn:Hget; [|exact Hreach].
    apply (@reachable_step admissible w _ Hreach). now apply (@step_get admissible w pc pc' db'). }
  destruct pc; try exact Hget.
  apply (@reachable_step admissible w _ Hreach). now apply step_count_down.
Qed.

Lemma works_reachable (env : Env) (n : nat) (w : World) :
  reachable admissible w -> reachable admissible (Run.works env n w).
Proof.
  revert w. induction n as [|n IH]; intros w Hreach; simpl; [exact Hreach|].
  apply IH. now apply work_reachable.
Qed.

End Runs.

Lemma parked_reachable (admissible : World -> Discord.Message -> Prop) :
  reachable admissible Run.parked.
Proof. apply works_reachable. apply reachable_fresh. Qed.

(** User 1 submits message 100 a second time while the first job waits. *)
Lemma C3_one_job_witness :
  let w := Run.submit Sample.user_1 Sample.voice_100 Run.parked in
  reachable any_submission w /\
  run (transcribe Sample.user_1 Sample.voice_100) (bot w)
  = (Responded (make_error_embed "transcribe.user-in-queue") true, bot w).
Proof.
  intros w.
  assert (Hreach : reachable any_submission w)
    by (apply submit_reachable, parked_reachable).
  split; [exact Hreach|].
  assert (Hin : In (Job.mk 1 1 100 9 "en-US") (rows (queue (database (bot w)))))
    by (simpl; now left).
  destruct (proj2 (proj2 (C3_one_job_per_submitter_and_source_when_handlers_take_turns
                            w Sample.user_1 Sample.voice_100 (Job.mk 1 1 100 9 "en-US")
                            Hreach))
                  Hin eq_refl eq_refl eq_refl) as [[E|E] Hsame].
  - apply injective_projections; [exact E|exact Hsame].
  - vm_compute in E. discriminate E.
Defined.

(** C3 as stated fails when two handlers overlap: users 1 and 2 ask for
    message 100, both pass the duplicate checks before either has
    enqueued, both are accepted, and the queue holds the source twice. *)
Lemma C3_overlapping_handlers_enqueue_one_source_twice :
  fst Run.overlapping
  = [Done (Responded (make_queue_embed "starting" None) false);
     Done (Responded (make_queue_embed "starting" None) false)] /\
  map Job.message_id (rows (queue (database (snd Run.overlapping)))) = [100; 100] /\
  ~ one_job_per_source (snd Run.overlapping).
Proof.
  split; [reflexivity|]. split; [reflexivity|].
  intros H. specialize (H 100). vm_compute in H. apply H. reflexivity.
Qed.

(** * One result per source *)

(** C5, for handlers that run one at a time and no submission of a source
    while its job is in flight.  The cache never holds two results for one
    message and channel, and a submission whose source has a result in the
    cache leaves the bot as it was. *)
Theorem C5_one_result_per_source_unless_resubmitted_in_flight
    (w : World) (ctx : Discord.Context) (message : Discord.Message) :
  reachable not_in_flight w ->
  one_result_per_source (bot w) /\
  (cached message (bot w) <> None ->
   snd (run (transcribe ctx message) (bot w)) = bot w).
Proof.
  intros Hreach. split.
  - exact (proj1 (reachable_cache_inv w Hreach)).
  - intros Hc.
    destruct (snd_run_transcribe ctx message (bot w)) as [E|(_ & _ & Hnone & _)];
      [exact E|contradiction].
Qed.

(** Message 100 is transcribed once and asked for again afterwards. *)
Lemma C5_one_result_witness :
  reachable not_in_flight Run.transcribed /\
  cached Sample.voice_100 (bot Run.transcribed) <> None /\
  snd (run (transcribe Sample.user_2 Sample.voice_100) (bot Run.transcribed))
  = bot Run.transcribed.
Proof.
  assert (Hreach : reachable not_in_flight Run.transcribed).
  { unfold Run.transcribed, Run.transcribing.
    apply work_reachable, works_reachable.
    apply (@reachable_step not_in_flight Run.parked _ (parked_reachable _)).
    apply (@step_submit not_in_flight Run.parked Sample.user_1 Sample.voice_100).
    intros j Hj. apply holds_getting in Hj. discriminate Hj. }
  assert (Hc : cached Sample.voice_100 (bot Run.transcribed) <> None)
    by (vm_compute; discriminate).
  split; [exact Hreach|]. split; [exact Hc|].
  exact (proj2 (C5_one_result_per_source_unless_resubmitted_in_flight
                  Run.transcribed Sample.user_2 Sample.voice_100 Hreach) Hc).
Defined.

(** C5 as stated fails: message 100 is submitted again while the worker
    transcribes it; the job is in neither the queue nor the cache, the
    submission is accepted, and the cache ends with two results for the
    pair (100, 9). *)
Lemma C5_resubmission_in_flight_stores_two_results :
  reachable any_submission Run.resubmitted_in_flight /\
  worker Run.transcribing = Processing (Job.mk 1 1 100 9 "en-US") /\
  map (fun r => (Transcription.message_id r, Transcription.channel_id r))
      (rows (transcriptions (database (bot Run.resubmitted_in_flight))))
  = [(100, 9); (100, 9)] /\
  ~ one_result_per_source (bot Run.resubmitted_in_flight).
Proof.
  split; [|split; [reflexivity|split; [reflexivity|]]].
  - unfold Run.resubmitted_in_flight, Run.transcribing.
    apply works_reachable, submit_reachable, works_reachable, submit_reachable.
    apply parked_reachable.
  - intros H. specialize (H 100 9). vm_compute in H. apply H. reflexivity.
Qed.

(** * The reported position *)

(** C7, as the code reports the position.  An accepted submission made
    while the event is set is told the counter [queue_size] plus one, read
    before the enqueue; when handlers run one at a time and the worker is not
    between the DELETE of [get()] and its [queue_size -= 1], that is the size
    of the queue before the enqueue plus one.  Made while the event is clear
    it is told "starting", with no position. *)
Theorem C7_position_is_the_counter_plus_one_when_the_event_is_set
    (w : World) (ctx : Discord.Context) (message : Discord.Message) (d : Q) :
  reachable any_submission w ->
  voice_note_ok message = true ->
  submitter_queued ctx (bot w) = false ->
  source_queued message (bot w) = false ->
  first_duration message = Some d -> longer_than_60 d = false ->
  cached message (bot w) = None ->
  snd (run (transcribe ctx message) (bot w)) = enqueued ctx message (bot w) /\
  get_queue_size (database (enqueued ctx message (bot w)))
  = get_queue_size (database (bot w)) + 1 /\
  (task_available (database (bot w)) = true ->
   fst (run (transcribe ctx message) (bot w))
   = Responded (QueueEmbed "added" (Some (queue_size (bot w) + 1))) false /\
   ((forall j, worker w <> Getting (Returned j)) ->
    queue_size (bot w) + 1 = get_queue_size (database (bot w)) + 1)) /\
  (task_available (database (bot w)) = false ->
   fst (run (transcribe ctx message) (bot w))
   = Responded (QueueEmbed "starting" None) false).
Proof.
  intros Hreach Hv Hs Hm Hd Hl Hc.
  destruct (reachable_queue_inv any_submission w Hreach) as (_ & Hsync & _).
  assert (Hrun : run (transcribe ctx message) (bot w)
                 = (Responded (queue_notice (bot w)) false, enqueued ctx message (bot w)))
    by handler_branch.
  rewrite Hrun. cbn [fst snd].
  split; [reflexivity|]. split; [|split].
  - unfold enqueued, add_to_queue.
    cbn [database with_queue_size with_database].
    change (get_queue_size (set_event ?x)) with (get_queue_size x).
    apply count_all_insert_job.
  - unfold queue_notice. intros ->. split; [reflexivity|].
    intros Hw. rewrite Hsync.
    destruct (worker w) as [[]| |]; simpl; try lia.
    now contradiction (Hw j).
  - unfold queue_notice. intros ->. reflexivity.
Qed.

(** The worker transcribes message 100, message 101 waits and the event is
    set; user 3 submits message 102 and is told position 2. *)
Lemma C7_position_witness :
  reachable any_submission Run.one_behind /\
  worker Run.one_behind = Processing (Job.mk 1 1 100 9 "en-US") /\
  task_available (database (bot Run.one_behind)) = true /\
  get_queue_size (database (bot Run.one_behind)) = 1 /\
  fst (run (transcribe Sample.user_3 Sample.voice_102) (bot Run.one_behind))
  = Responded (QueueEmbed "added" (Some 2)) false.
Proof.
  assert (Hreach : reachable any_submission Run.one_behind).
  { unfold Run.one_behind, Run.transcribing.
    apply submit_reachable, works_reachable, submit_reachable, parked_reachable. }
  assert (Hev : task_available (database (bot Run.one_behind)) = true) by reflexivity.
  split; [exact Hreach|]. split; [reflexivity|]. split; [exact Hev|].
  split; [reflexivity|].
  exact (proj1 (proj1 (proj2 (proj2
           (C7_position_is_the_counter_plus_one_when_the_event_is_set
              Run.one_behind Sample.user_3 Sample.voice_102 (5 # 1) Hreach
              eq_refl eq_refl eq_refl eq_refl eq_refl eq_refl))) Hev)).
Defined.

(** C7 as stated fails: the submission of user 1 has woken the parked
    worker, which has cleared the event and is about to select job 100;
    user 2 submits message 101, which is accepted and enqueued behind job
    100, and the answer is the "starting" notice, not the position
    size() + 1 = 2. *)
Lemma C7_submission_is_told_no_position_while_the_event_is_clear :
  reachable any_submission Run.woken /\
  worker Run.woken = Getting AtSelect /\
  task_available (database (bot Run.woken)) = false /\
  get_queue_size (database (bot Run.woken)) = 1 /\
  get_queue_size (database (snd (run (transcribe Sample.user_2 Sample.voice_101)
                                     (bot Run.woken)))) = 2 /\
  fst (run (transcribe Sample.user_2 Sample.voice_101) (bot Run.woken))
  = Responded (QueueEmbed "starting" None) false /\
  fst (run (transcribe Sample.user_2 Sample.voice_101) (bot Run.woken))
  <> Responded (QueueEmbed "added"
                  (Some (get_queue_size (database (bot Run.woken)) + 1))) false.
Proof.
  split.
  { unfold Run.woken. apply work_reachable, submit_reachable, parked_reachable. }
  split; [reflexivity|]. split; [reflexivity|]. split; [reflexivity|].
  split; [reflexivity|]. split; [reflexivity|].
  vm_compute. discriminate.
Qed.

(** * The wake-up signal *)

(** [add_to_queue] takes two scheduling slots: the first commits the row,
    the second sets the event; these are the commit and set steps of the
    system below. *)
Lemma add_to_queue_task_slots (u m c : Z) (l : string) (b : Bot) :
  let first := resume (add_to_queue_task u m c l) b in
  let second := resume (fst first) (snd first) in
  database (snd first) = insert_job u m c l (database b) /\
  database (snd second) = set_event (database (snd first)) /\
  fst second = Done tt.
Proof. repeat split. Qed.

Lemma signal_all_queue (n : nat) (db : Database) :
  queue (signal_all n db) = queue db.
Proof. revert db. induction n as [|n IH]; intros db; simpl; [reflexivity|]. now rewrite IH. Qed.

Lemma signal_all_event (n : nat) (db : Database) :
  task_available (signal_all n db) = true <->
  task_available db = true \/ (0 < n)%nat.
Proof.
  revert db. induction n as [|n IH]; intros db; simpl.
  - split; [tauto|]. intros [H|H]; [exact H|lia].
  - rewrite IH. simpl. split; intros _; [right; lia|now left].
Qed.

Lemma async_step_inv (s s' : Async) :
  async_step s s' -> async_inv s -> async_inv s'.
Proof.
  intros Hstep [Hwait Hdel].
  destruct Hstep as [db pc n pc' db' Hget|db j n|db pc n u m c l|db pc n|db pc n r];
    unfold async_inv, signal_due in *; cbn [adb wpc unsignalled] in *.
  - destruct pc; simpl in Hget.
    + destruct (select_first_by_id (queue db)) as [j|] eqn:Hsel;
        injection Hget as <- <-; split.
      * intros [H|H]; discriminate H.
      * intros j0 [= <-]. now apply select_first_by_id_min in Hsel.
      * intros _. left. now apply select_first_by_id_none.
      * intros j0 H; discriminate H.
    + injection Hget as <- <-. split; [intros [H|H]; discriminate H|intros j0 H; discriminate H].
    + destruct (task_available db) eqn:Hev; injection Hget as <- <-; split;
        try (intros [H|H]; discriminate H); try (intros j0 H; discriminate H).
      intros _. destruct (Hwait (or_introl eq_refl)) as [H|[H|H]]; auto; congruence.
    + destruct (task_available db) eqn:Hev; [|discriminate Hget].
      injection Hget as <- <-. split; [intros [H|H]; discriminate H|intros j0 H; discriminate H].
    + discriminate Hget.
  - split; [intros [H|H]; discriminate H|intros j0 H; discriminate H].
  - split.
    + intros _. right. right. lia.
    + intros j Hj. rewrite insert_job_rows. apply in_or_app. left. now apply Hdel.
  - split.
    + intros _. right. now left.
    + exact Hdel.
  - split.
    + intros Hpc. destruct (Hwait Hpc) as [H|[H|H]]; auto.
    + exact Hdel.
Qed.

Lemma async_reachable_inv (s : Async) : async_reachable s -> async_inv s.
Proof.
  induction 1 as [q r|s s' _ IH Hstep].
  - split; cbn [wpc]; [intros [H|H]; discriminate H|intros j H; discriminate H].
  - now apply (async_step_inv s s').
Qed.

(** With rows in the queue and the event set, a waiting worker clears the
    event, selects again, deletes the oldest row and returns it. *)
Lemma waiting_worker_dequeues (pc : GetPc) (db : Database) :
  pc = AtWait \/ pc = Suspended ->
  task_available db = true -> rows (queue db) <> [] ->
  exists j db',
    get_loop 3 pc db = (Returned j, db') /\ In j (rows (queue db)) /\
    (forall j', In j' (rows (queue db)) -> Job.id j <= Job.id j') /\
    rows (queue db')
    = filter (fun r => negb (Job.id r =? Job.id j)) (rows (queue db)) /\
    ~ In j (rows (queue db')) /\ task_available db' = false.
Proof.
  intros Hpc Hev Hrows.
  destruct (select_first_by_id (queue db)) as [j|] eqn:Hsel;
    [|apply select_first_by_id_none in Hsel; contradiction].
  exists j, (with_queue (delete_where (fun r => Job.id r =? Job.id j) (queue db))
                        (clear_event db)).
  split.
  - destruct Hpc as [-> | ->]; cbn [get_loop get_step]; rewrite Hev;
      cbn [get_loop get_step clear_event with_task_available queue];
      rewrite Hsel; reflexivity.
  - destruct (select_first_by_id_min _ _ Hsel) as [Hin Hmin].
    split; [exact Hin|]. split; [exact Hmin|]. split; [reflexivity|].
    split; [apply deleted_by_id_is_gone|reflexivity].
Qed.

(** On an empty queue the loop run on its own ends parked in [wait()] with
    the event clear, whether or not the event was set before. *)
Lemma get_loop_parks (fuel : nat) (pc : GetPc) (db : Database) :
  rows (queue db) = [] -> empty_handed pc -> (4 <= fuel)%nat ->
  exists db',
    get_loop fuel pc db = (Suspended, db') /\ task_available db' = false /\
    queue db' = queue db /\ transcriptions db' = transcriptions db.
Proof.
  intros Hrows Hpc Hfuel.
  assert (Hsel : select_first_by_id (queue db) = None)
    by now apply select_first_by_id_none.
  assert (Hclear : forall n, (2 <= n)%nat ->
            get_loop n AtSelect (clear_event db) = (Suspended, clear_event db)).
  { intros n Hn. do 2 (destruct n as [|n]; [lia|]).
    cbn [get_loop get_step clear_event with_task_available queue task_available].
    rewrite Hsel. now apply get_loop_parked. }
  assert (Hwait : forall n, (3 <= n)%nat ->
            exists db',
              get_loop n AtWait db = (Suspended, db') /\ task_available db' = false /\
              queue db' = queue db /\ transcriptions db' = transcriptions db).
  { intros n Hn. destruct n as [|n]; [lia|]. cbn [get_loop get_step].
    destruct (task_available db) eqn:He.
    - exists (clear_event db). rewrite Hclear by lia. repeat split.
    - exists db. rewrite get_loop_parked by exact He. repeat split. exact He. }
  destruct fuel as [|fuel]; [lia|].
  destruct pc; simpl in Hpc; try contradiction.
  - cbn [get_loop get_step]. rewrite Hsel. apply Hwait. lia.
  - apply Hwait. lia.
  - cbn [get_loop get_step]. destruct (task_available db) eqn:He.
    + exists (clear_event db). rewrite Hclear by lia. repeat split.
    + exists db. repeat split. exact He.
Qed.

(** C6. [get()] never returns on an empty queue: run on its own it ends
    parked in [wait()] with the event clear, and parked it does not move
    until the event is set.  A waiting worker that finds the event set
    clears it and selects again; what it deletes and returns is a row of the
    queue.  A worker parked on a cleared event sees an empty queue or has an
    enqueuer about to set the event, so no signal is lost; once the
    enqueuers have set the event, a queue with rows makes the worker return
    a job of that queue within three steps of its loop, with the event
    cleared on the way. *)
Theorem C6_no_wakeup_is_lost_and_get_returns_only_jobs (s : Async) (fuel : nat) :
  async_reachable s ->
  (rows (queue (adb s)) = [] -> empty_handed (wpc s) ->
   empty_handed (fst (get_loop fuel (wpc s) (adb s))) /\
   ((4 <= fuel)%nat ->
    fst (get_loop fuel (wpc s) (adb s)) = Suspended /\
    task_available (snd (get_loop fuel (wpc s) (adb s))) = false /\
    rows (queue (snd (get_loop fuel (wpc s) (adb s)))) = [] /\
    get_step Suspended (snd (get_loop fuel (wpc s) (adb s))) = None)) /\
  (get_step (wpc s) (adb s) = None ->
   (exists j, wpc s = Returned j) \/
   (wpc s = Suspended /\ task_available (adb s) = false)) /\
  (wpc s = AtWait \/ wpc s = Suspended -> task_available (adb s) = true ->
   exists db',
     get_step (wpc s) (adb s) = Some (AtSelect, db') /\
     task_available db' = false /\
     queue db' = queue (adb s) /\ transcriptions db' = transcriptions (adb s)) /\
  (wpc s = AtWait -> task_available (adb s) = false ->
   get_step (wpc s) (adb s) = Some (Suspended, adb s)) /\
  (wpc s = Suspended -> task_available (adb s) = false ->
   rows (queue (adb s)) <> [] -> (0 < unsignalled s)%nat) /\
  (forall j, wpc s = AtDelete j -> In j (rows (queue (adb s)))) /\
  (rows (queue (adb s)) <> [] ->
   exists n j db',
     (n <= 3)%nat /\
     get_loop n (wpc s) (signal_all (unsignalled s) (adb s)) = (Returned j, db') /\
     ((exists j0, wpc s = Returned j0) \/ In j (rows (queue (adb s)))) /\
     (wpc s = AtWait \/ wpc s = Suspended ->
      task_available db' = false /\ ~ In j (rows (queue db')))).
Proof.
  intros Hreach.
  destruct (async_reachable_inv s Hreach) as [Hwait Hdel].
  split; [|split; [|split; [|split; [|split; [|split; [exact Hdel|]]]]]].
  - intros Hrows Hpc. split; [now apply get_loop_empty|].
    intros Hfuel.
    destruct (get_loop_parks fuel (wpc s) (adb s) Hrows Hpc Hfuel)
      as (db' & -> & Hev & Hq & _).
    cbn [fst snd get_step]. rewrite Hev, Hq. auto.
  - destruct (wpc s); simpl; try discriminate.
    + destruct (select_first_by_id (queue (adb s))); discriminate.
    + destruct (task_available (adb s)); discriminate.
    + destruct (task_available (adb s)); [discriminate|]. intros _. right. now split.
    + intros _. left. now exists j.
  - intros Hpc Hev. exists (clear_event (adb s)).
    split; [destruct Hpc as [-> | ->]; simpl; now rewrite Hev|]. repeat split.
  - intros -> Hev. simpl. now rewrite Hev.
  - intros Hpc Hev Hrows.
    destruct (Hwait (or_intror Hpc)) as [H|[H|H]]; [contradiction|congruence|exact H].
  - intros Hrows.
    assert (Hrows' : rows (queue (signal_all (unsignalled s) (adb s))) <> [])
      by now rewrite signal_all_queue.
    assert (Hwaiting : wpc s = AtWait \/ wpc s = Suspended ->
              exists n j db',
                (n <= 3)%nat /\
                get_loop n (wpc s) (signal_all (unsignalled s) (adb s)) = (Returned j, db') /\
                ((exists j0, wpc s = Returned j0) \/ In j (rows (queue (adb s)))) /\
                (wpc s = AtWait \/ wpc s = Suspended ->
                 task_available db' = false /\ ~ In j (rows (queue db')))).
    { intros Hpc.
      assert (Hev : task_available (signal_all (unsignalled s) (adb s)) = true).
      { apply signal_all_event. destruct (Hwait Hpc) as [H|H]; [contradiction|exact H]. }
      destruct (waiting_worker_dequeues _ _ Hpc Hev Hrows')
        as (j & db' & Hrun & Hin & _ & _ & Hgone & Hclear).
      exists 3%nat, j, db'. split; [lia|]. split; [exact Hrun|].
      split; [right; now rewrite signal_all_queue in Hin|]. intros _. now split. }
    destruct (wpc s) as [|j| | |j] eqn:Hpc.
    + destruct (select_first_by_id (queue (adb s))) as [j|] eqn:Hsel;
        [|apply select_first_by_id_none in Hsel; contradiction].
      exists 2%nat, j. eexists. split; [lia|]. split; [|split].
      * cbn [get_loop get_step]. rewrite signal_all_queue, Hsel. reflexivity.
      * right. now apply select_first_by_id_min in Hsel.
      * intros [H|H]; discriminate H.
    + exists 1%nat, j. eexists. split; [lia|]. split; [reflexivity|].
      split; [right; now apply Hdel|]. intros [H|H]; discriminate H.
    + apply Hwaiting. now left.
    + apply Hwaiting. now right.
    + exists 0%nat, j. eexists. split; [lia|]. split; [reflexivity|].
      split; [left; now exists j|]. intros [H|H]; discriminate H.
Qed.

Lemma parked_then_signalled_reachable : async_reachable parked_then_signalled.
Proof.
  unfold parked_then_signalled.
  eapply async_next; [|apply async_set].
  eapply async_next;
    [|apply (@async_get (insert_job 1 100 9 "en-US" (initialize empty_table empty_table))
                        AtWait 1 Suspended _); reflexivity].
  eapply async_next; [|apply async_commit].
  eapply async_next;
    [|apply (@async_get (initialize empty_table empty_table) AtSelect 0 AtWait _);
      reflexivity].
  apply async_init.
Qed.

(** The enqueuer set the event after the worker had parked: the worker
    wakes, clears the event and returns job 1. *)
Lemma C6_no_wakeup_is_lost_witness :
  async_reachable parked_then_signalled /\
  rows (queue (adb parked_then_signalled)) <> [] /\
  exists n j db',
    (n <= 3)%nat /\
    get_loop n (wpc parked_then_signalled)
             (signal_all (unsignalled parked_then_signalled) (adb parked_then_signalled))
    = (Returned j, db') /\
    ((exists j0, wpc parked_then_signalled = Returned j0) \/
     In j (rows (queue (adb parked_then_signalled)))) /\
    (wpc parked_then_signalled = AtWait \/ wpc parked_then_signalled = Suspended ->
     task_available db' = false /\ ~ In j (rows (queue db'))).
Proof.
  assert (Hrows : rows (queue (adb parked_then_signalled)) <> []) by discriminate.
  split; [exact parked_then_signalled_reachable|]. split; [exact Hrows|].
  exact (proj2 (proj2 (proj2 (proj2 (proj2 (proj2
           (C6_no_wakeup_is_lost_and_get_returns_only_jobs
              parked_then_signalled 3 parked_then_signalled_reachable)))))) Hrows).
Defined.

(** * Further properties of the queue store *)

Lemma table_ok_insert_job (u m c : Z) (l : string) (db : Database) :
  table_ok (queue db) -> table_ok (queue (insert_job u m c l db)).
Proof.
  intros [Hwf Hb]. split; [now apply insert_job_wf|].
  unfold table_bounded in *. rewrite queue_insert_job. unfold insert; simpl.
  pose proof (next_rowid_above_seq (queue db)) as Hseq.
  apply Forall_app. split.
  - eapply Forall_impl; [|exact Hb]. simpl. intros r Hr.
    change (rowid r <= next_rowid (queue db)). lia.
  - constructor; [|constructor]. change (next_rowid (queue db) <= next_rowid (queue db)). lia.
Qed.

Lemma table_ok_tail (q : Table Job.t) (j : Job.t) (rest : list Job.t) :
  table_ok q -> rows q = j :: rest ->
  table_ok (mkTable rest (seq q)) /\ Job.id j <= seq q /\
  Forall (fun r => Job.id j < Job.id r) rest.
Proof.
  intros [Hwf Hb] Hrows. unfold table_ok, table_wf, table_bounded in *.
  rewrite Hrows in *. simpl in *.
  inversion Hwf as [|? ? Hs Hlt]; subst. inversion Hb as [|? ? Hj Hrest]; subst.
  repeat split; auto.
  rewrite Forall_forall in *. intros r Hr. apply Hlt. now apply (in_map Job.id).
Qed.

(** X1. Enqueues and dequeues in any order: the jobs returned so far,
    followed by the jobs still in the queue, are the jobs the queue started
    with followed by the enqueued submissions, in that order and with
    strictly increasing ids.  No job is lost, returned twice or overtaken,
    and the id of a dequeued job is not handed out again. *)
Theorem play_returns_and_keeps_every_job_in_order (ops : list QueueOp) (db : Database) :
  table_ok (queue db) ->
  exists news,
    fst (play ops db) ++ rows (queue (snd (play ops db))) = rows (queue db) ++ news /\
    map submission_of news = submissions_of ops /\
    StronglySorted Z.lt (map Job.id (rows (queue db) ++ news)) /\
    Forall (fun j => seq (queue db) < Job.id j) news /\
    table_ok (queue (snd (play ops db))).
Proof.
  revert db. induction ops as [|[[[[u m] c] l]|] ops IH]; intros db Hok.
  - exists []. simpl. rewrite app_nil_r. repeat split; auto; apply Hok.
  - simpl. destruct (IH (add_to_queue u m c l db)) as (news & Happ & Hmap & Hs & Hseq & Hok').
    { now apply table_ok_insert_job. }
    change (queue (add_to_queue u m c l db)) with (queue (insert_job u m c l db)) in *.
    rewrite insert_job_rows in *.
    assert (Hnew : seq (queue (insert_job u m c l db)) = next_rowid (queue db)) by reflexivity.
    pose proof (next_rowid_above_seq (queue db)) as Hlt.
    exists (Job.mk (next_rowid (queue db)) u m c l :: news).
    split; [|split; [|split; [|split]]].
    + rewrite Happ, <- app_assoc. reflexivity.
    + simpl. now rewrite Hmap.
    + rewrite <- app_assoc in Hs. exact Hs.
    + constructor; [exact Hlt|].
      eapply Forall_impl; [|exact Hseq]. intros j Hj.
      change (next_rowid (queue db) < Job.id j) in Hj. lia.
    + exact Hok'.
  - destruct (rows (queue db)) as [|j rest] eqn:Hrows.
    + destruct (get_loop_empty 4 AtSelect db Hrows I) as [Hpc Hq].
      change (get_loop 4 AtSelect db) with (get 4 db) in *.
      cbn [play]. destruct (get 4 db) as [pc db'] eqn:Hget. simpl in Hpc, Hq.
      assert (Hok' : table_ok (queue db')) by now rewrite Hq.
      destruct (IH db' Hok') as (news & Happ & Hmap & Hs & Hseq & Hok'').
      rewrite Hq, Hrows in *.
      destruct pc; try contradiction; exists news; repeat split; auto; apply Hok''.
    + destruct (table_ok_tail _ j rest Hok Hrows) as (Hok1 & Hj & Hrest).
      cbn [play]. rewrite (get_returns_head db j rest 4 (proj1 Hok) Hrows) by lia.
      set (db1 := with_queue (mkTable rest (seq (queue db))) db) in *.
      destruct (IH db1 Hok1) as (news & Happ & Hmap & Hs & Hseq & Hok').
      destruct (play ops db1) as [js db''] eqn:Hplay. simpl in *.
      exists news. split; [|split; [|split; [|split]]]; auto.
      * now rewrite Happ.
      * constructor; [exact Hs|].
        rewrite map_app. apply Forall_app. split.
        -- apply Forall_map. exact Hrest.
        -- apply Forall_map. eapply Forall_impl; [|exact Hseq]. simpl. intros; lia.
Qed.

(** Two jobs are enqueued around a dequeue on a bot started on empty tables. *)
Lemma play_returns_and_keeps_every_job_witness :
  let db := initialize empty_table empty_table in
  let ops := [Dequeue; Enqueue (1, 100, 9, "en-US"%string); Dequeue;
              Enqueue (2, 101, 9, "fr"%string)] in
  table_ok (queue db) /\
  exists news,
    fst (play ops db) ++ rows (queue (snd (play ops db))) = rows (queue db) ++ news /\
    map submission_of news = submissions_of ops.
Proof.
  intros db ops.
  assert (Hok : table_ok (queue db)) by (split; constructor).
  split; [exact Hok|].
  destruct (play_returns_and_keeps_every_job_in_order ops db Hok)
    as (news & Happ & Hmap & _).
  now exists news.
Defined.

(** X2. Results stored and sweeps run in any order: the ids that
    [add_transcription] returns increase strictly and lie above the sequence
    counter the table started with, so the id of a result is never given to
    another result, also after the first was swept; the queue and the event
    are not touched. *)
Theorem replay_never_reuses_a_result_id (ops : list CacheOp) (db : Database) :
  table_bounded (transcriptions db) ->
  StronglySorted Z.lt (fst (replay ops db)) /\
  Forall (fun uid => seq (transcriptions db) < uid) (fst (replay ops db)) /\
  (forall r uid, In r (rows (transcriptions db)) -> In uid (fst (replay ops db)) ->
                 Transcription.id r < uid) /\
  table_bounded (transcriptions (snd (replay ops db))) /\
  queue (snd (replay ops db)) = queue db /\
  task_available (snd (replay ops db)) = task_available db.
Proof.
  intros Hb.
  assert (Hmain : StronglySorted Z.lt (fst (replay ops db)) /\
                  Forall (fun uid => seq (transcriptions db) < uid) (fst (replay ops db)) /\
                  table_bounded (transcriptions (snd (replay ops db))) /\
                  queue (snd (replay ops db)) = queue db /\
                  task_available (snd (replay ops db)) = task_available db).
  { revert db Hb. induction ops as [|[m c text now|now days] ops IH]; intros db Hb.
    - simpl. repeat split; auto; constructor.
    - cbn [replay]. unfold add_transcription.
      set (t' := snd (insert (fun i => Transcription.mk i m c text now) (transcriptions db))).
      change (insert (fun i => Transcription.mk i m c text now) (transcriptions db))
        with (next_rowid (transcriptions db), t').
      cbv iota beta.
      assert (Hb' : table_bounded (transcriptions (with_transcriptions t' db))).
      { unfold table_bounded, t', insert; simpl.
        pose proof (next_rowid_above_seq (transcriptions db)) as Hlt.
        apply Forall_app. split.
        - eapply Forall_impl; [|exact Hb]. simpl. intros r Hr.
          change (rowid r <= next_rowid (transcriptions db)). lia.
        - constructor; [|constructor].
          change (next_rowid (transcriptions db) <= next_rowid (transcriptions db)). lia. }
      destruct (IH _ Hb') as (Hs & Hseq & Hb'' & Hq & He).
      destruct (replay ops (with_transcriptions t' db)) as [uids db''] eqn:Hrep.
      simpl in *.
      pose proof (next_rowid_above_seq (transcriptions db)) as Hlt.
      repeat split; auto.
      + constructor; [exact Hs|exact Hseq].
      + constructor; [exact Hlt|].
        eapply Forall_impl; [|exact Hseq]. simpl. intros; lia.
    - cbn [replay].
      assert (Hb' : table_bounded (transcriptions (delete_outdated now days db))).
      { unfold table_bounded, delete_outdated, delete_where in *; simpl.
        rewrite Forall_forall in *. intros r Hr. apply filter_In in Hr. apply Hb, Hr. }
      destruct (IH _ Hb') as (Hs & Hseq & Hb'' & Hq & He).
      repeat split; auto. }
  destruct Hmain as (Hs & Hseq & Hb' & Hq & He).
  repeat split; auto.
  intros r uid Hr Huid.
  unfold table_bounded in Hb. rewrite Forall_forall in Hb, Hseq.
  specialize (Hb r Hr). specialize (Hseq uid Huid). simpl in Hb.
  change (rowid r) with (Transcription.id r) in Hb. lia.
Qed.

(** A result is stored, everything is swept, and a second result is stored:
    the second id is 2, not 1 again. *)
Lemma replay_never_reuses_a_result_id_witness :
  let db := initialize empty_table empty_table in
  let ops := [Put 100 9 "hello" 1000; Sweep 9000000 7; Put 101 9 "again" 9000000] in
  table_bounded (transcriptions db) /\
  fst (replay ops db) = [1; 2] /\
  StronglySorted Z.lt (fst (replay ops db)).
Proof.
  intros db ops.
  assert (Hb : table_bounded (transcriptions db)) by constructor.
  split; [exact Hb|]. split; [reflexivity|].
  exact (proj1 (replay_never_reuses_a_result_id ops db Hb)).
Defined.

(** X3. A restart on the persisted tables: the counter and [get_queue_size]
    are the number of persisted jobs, the event is set exactly when there is
    one, the cache is as persisted, and [get()] hands the persisted jobs out
    in their order. *)
Theorem on_start_resumes_the_persisted_queue
    (owners : Z -> bool) (q : Table Job.t) (r : Table Transcription.t) :
  table_wf q ->
  let b := on_start owners q r in
  get_queue_size (database b) = Z.of_nat (List.length (rows q)) /\
  queue_size b = Z.of_nat (List.length (rows q)) /\
  (task_available (database b) = true <-> rows q <> []) /\
  transcriptions (database b) = r /\
  fst (drain (List.length (rows q)) (database b)) = rows q.
Proof.
  intros Hwf b.
  assert (Hsize : get_queue_size (database b) = Z.of_nat (List.length (rows q))).
  { unfold get_queue_size, count_where. simpl. now rewrite filter_all. }
  split; [exact Hsize|]. split; [exact Hsize|]. split; [|split; [reflexivity|]].
  - simpl. unfold count_where. rewrite filter_all by reflexivity.
    rewrite Z.ltb_lt. destruct (rows q); simpl; split; intros Hx;
      try discriminate; try lia. now contradiction Hx.
  - now rewrite (drain_in_order (rows q) (database b) Hwf eq_refl).
Qed.

(** Three jobs persisted before the restart. *)
Lemma on_start_resumes_the_persisted_queue_witness :
  let q := mkTable [Job.mk 4 1 100 9 "en-US"; Job.mk 5 2 101 9 "fr"; Job.mk 7 3 102 8 "de"] 7 in
  let b := on_start Sample.nobody q empty_table in
  table_wf q /\ queue_size b = 3 /\ fst (drain 3 (database b)) = rows q.
Proof.
  intros q b.
  assert (Hwf : table_wf q).
  { unfold table_wf; simpl. repeat constructor; lia. }
  split; [exact Hwf|].
  destruct (on_start_resumes_the_persisted_queue Sample.nobody q empty_table Hwf)
    as (_ & Hn & _ & _ & Hd).
  split; [exact Hn|exact Hd].
Defined.

(** X4. [get()] on an empty queue, run on its own: whether or not the event
    was set, after at most four steps of the loop the coroutine is parked
    in [wait()], the event is clear and both tables are as they were; a set
    event left over from earlier enqueues is used up without a return. *)
Theorem get_on_an_empty_queue_clears_the_event_and_parks (db : Database) (fuel : nat) :
  rows (queue db) = [] -> (4 <= fuel)%nat ->
  get fuel db = (Suspended, clear_event db).
Proof.
  intros Hrows Hfuel.
  assert (Hsel : select_first_by_id (queue db) = None) by now apply select_first_by_id_none.
  do 4 (destruct fuel as [|fuel]; [lia|]).
  unfold get. cbn [get_loop get_step]. rewrite Hsel. cbn [get_loop get_step].
  destruct (task_available db) eqn:He.
  - cbn [get_loop get_step clear_event with_task_available queue task_available].
    rewrite Hsel. cbn [get_loop get_step].
    change (task_available (clear_event db)) with false. cbv iota.
    now rewrite get_loop_parked.
  - cbn [get_step]. rewrite He.
    destruct db as [q t e]. simpl in He. now subst e.
Qed.

(** The event is still set from an enqueue whose job is already gone. *)
Lemma get_on_an_empty_queue_witness :
  let db := snd (get 2 (add_to_queue 1 100 9 "en-US" (initialize empty_table empty_table))) in
  rows (queue db) = [] /\ task_available db = true /\
  get 4 db = (Suspended, clear_event db).
Proof.
  intros db.
  assert (Hrows : rows (queue db) = []) by reflexivity.
  split; [exact Hrows|]. split; [reflexivity|].
  exact (get_on_an_empty_queue_clears_the_event_and_parks db 4 Hrows (le_n 4)).
Defined.

(** In a well-formed queue what [get()] returns is the first row. *)
Lemma get_returned_head (fuel : nat) (db db' : Database) (j : Job.t) :
  table_wf (queue db) -> get fuel db = (Returned j, db') ->
  exists rest,
    rows (queue db) = j :: rest /\
    db' = with_queue (mkTable rest (seq (queue db))) db.
Proof.
  intros Hwf Hget. apply get_returned in Hget. destruct Hget as [Hsel ->].
  destruct (rows (queue db)) as [|j0 rest] eqn:Hrows.
  { apply select_first_by_id_none in Hrows. congruence. }
  pose proof (select_first_by_id_head _ _ _ Hwf Hrows) as Hhd.
  assert (j0 = j) by congruence. subst j0.
  exists rest. split; [reflexivity|].
  pose proof (delete_head_by_id _ _ _ Hwf Hrows) as Hdel.
  change (delete_where (fun r : Job.t => Job.id r =? Job.id j) (queue db)
          = mkTable rest (seq (queue db))) in Hdel.
  now rewrite Hdel.
Qed.

Lemma bool_of_int_positive (n : Z) : 0 < n -> Py.bool_of_int n = true.
Proof. intros Hn. unfold Py.bool_of_int. apply negb_true_iff, Z.eqb_neq. lia. Qed.

(** X5. [add_to_queue] and the queries: afterwards the submitter and the
    message are reported as queued, the size is one higher and the event is
    set; the answers for other submitters and other messages, and the cache,
    are as before. *)
Theorem add_to_queue_is_seen_by_the_queries
    (u m c : Z) (l : string) (db : Database) (u' m' : Z) :
  let db' := add_to_queue u m c l db in
  user_in_queue u db' = true /\
  message_in_queue m db' = true /\
  get_queue_size db' = get_queue_size db + 1 /\
  task_available db' = true /\
  (u' <> u -> user_in_queue u' db' = user_in_queue u' db) /\
  (m' <> m -> message_in_queue m' db' = message_in_queue m' db) /\
  transcriptions db' = transcriptions db.
Proof.
  intros db'. unfold db', add_to_queue, user_in_queue, message_in_queue.
  change (queue (set_event ?x)) with (queue x).
  change (get_queue_size (set_event ?x)) with (get_queue_size x).
  rewrite !count_submitter_insert_job, !count_source_insert_job, count_all_insert_job.
  rewrite !Z.eqb_refl.
  pose proof (count_where_nonneg (fun j => Job.user_id j =? u) (queue db)).
  pose proof (count_where_nonneg (fun j => Job.message_id j =? m) (queue db)).
  split; [apply bool_of_int_positive; lia|].
  split; [apply bool_of_int_positive; lia|].
  split; [reflexivity|]. split; [reflexivity|].
  split; [|split; [|reflexivity]]; intros Hne.
  - destruct (Z.eqb_spec u u'); [congruence|]. now rewrite Z.add_0_r.
  - destruct (Z.eqb_spec m m'); [congruence|]. now rewrite Z.add_0_r.
Qed.

(** A [get()] that finds a row at its first SELECT. *)
Lemma get_returns_after_the_first_select
    (fuel : nat) (db db' : Database) (j : Job.t) (u' m' : Z) :
  table_wf (queue db) ->
  get fuel db = (Returned j, db') ->
  In j (rows (queue db)) /\
  get_queue_size db' = get_queue_size db - 1 /\
  ~ In j (rows (queue db')) /\
  (u' <> Job.user_id j -> user_in_queue u' db' = user_in_queue u' db) /\
  (m' <> Job.message_id j -> message_in_queue m' db' = message_in_queue m' db) /\
  task_available db' = task_available db /\
  transcriptions db' = transcriptions db.
Proof.
  intros Hwf Hget.
  destruct (get_returned_head fuel db db' j Hwf Hget) as (rest & Hrows & ->).
  unfold get_queue_size, user_in_queue, message_in_queue, count_where.
  cbn [queue with_queue rows task_available transcriptions]. rewrite Hrows.
  split; [now left|]. split; [|split; [|split; [|split; [|split; reflexivity]]]].
  - rewrite !filter_all by reflexivity. simpl List.length. lia.
  - intros Hin. unfold table_wf in Hwf. rewrite Hrows in Hwf. simpl in Hwf.
    inversion Hwf as [|? ? _ Hlt]; subst. rewrite Forall_forall in Hlt.
    specialize (Hlt (Job.id j) (in_map Job.id _ _ Hin)).
    unfold rowid, Job_rowid in Hlt. lia.
  - intros Hne. simpl. destruct (Z.eqb_spec (Job.user_id j) u'); [congruence|reflexivity].
  - intros Hne. simpl. destruct (Z.eqb_spec (Job.message_id j) m'); [congruence|reflexivity].
Qed.

(** X6. A [get()] that returns, from wherever it is resumed: at the top of
    its loop, or in [wait()] after it had found the queue empty.  The job it
    returns was in the queue, the queue is one shorter and no longer holds
    it, the answers of the queries for other submitters and other messages
    are as before and the cache is not touched.  The event is left as it was
    when the row is found at the first SELECT; a [get()] that had waited was
    woken by a set event and returns with the event cleared. *)
Theorem get_is_seen_by_the_queries
    (fuel : nat) (pc : GetPc) (db db' : Database) (j : Job.t) (u' m' : Z) :
  table_wf (queue db) ->
  empty_handed pc ->
  get_loop fuel pc db = (Returned j, db') ->
  In j (rows (queue db)) /\
  get_queue_size db' = get_queue_size db - 1 /\
  ~ In j (rows (queue db')) /\
  (u' <> Job.user_id j -> user_in_queue u' db' = user_in_queue u' db) /\
  (m' <> Job.message_id j -> message_in_queue m' db' = message_in_queue m' db) /\
  transcriptions db' = transcriptions db /\
  (pc = AtSelect -> task_available db' = task_available db) /\
  (pc = AtWait \/ pc = Suspended ->
   task_available db = true /\ task_available db' = false).
Proof.
  intros Hwf Hpc Hget.
  assert (Hwoken : pc = AtWait \/ pc = Suspended ->
            task_available db = true /\
            exists n, get n (clear_event db) = (Returned j, db')).
  { intros Hw. destruct fuel as [|fuel].
    - destruct Hw as [-> | ->]; discriminate Hget.
    - destruct (task_available db) eqn:He.
      + split; [reflexivity|]. exists fuel.
        destruct Hw as [-> | ->]; cbn [get_loop get_step] in Hget;
          rewrite He in Hget; exact Hget.
      + exfalso. destruct Hw as [-> | ->]; cbn [get_loop get_step] in Hget;
          rewrite He in Hget; try rewrite get_loop_parked in Hget by exact He;
          discriminate Hget. }
  destruct pc; simpl in Hpc; try contradiction.
  - destruct (get_returns_after_the_first_select fuel db db' j u' m' Hwf Hget)
      as (H1 & H2 & H3 & H4 & H5 & H6 & H7).
    split; [exact H1|]. split; [exact H2|]. split; [exact H3|]. split; [exact H4|].
    split; [exact H5|]. split; [exact H7|]. split; [intros _; exact H6|].
    intros [Hx|Hx]; discriminate Hx.
  - destruct (Hwoken (or_introl eq_refl)) as (He & n & Hn).
    destruct (get_returns_after_the_first_select n (clear_event db) db' j u' m' Hwf Hn)
      as (H1 & H2 & H3 & H4 & H5 & H6 & H7).
    split; [exact H1|]. split; [exact H2|]. split; [exact H3|]. split; [exact H4|].
    split; [exact H5|]. split; [exact H7|]. split; [intros Hx; discriminate Hx|].
    intros _. split; [exact He|exact H6].
  - destruct (Hwoken (or_intror eq_refl)) as (He & n & Hn).
    destruct (get_returns_after_the_first_select n (clear_event db) db' j u' m' Hwf Hn)
      as (H1 & H2 & H3 & H4 & H5 & H6 & H7).
    split; [exact H1|]. split; [exact H2|]. split; [exact H3|]. split; [exact H4|].
    split; [exact H5|]. split; [exact H7|]. split; [intros Hx; discriminate Hx|].
    intros _. split; [exact He|exact H6].
Qed.

(** Job 1 of user 1 is taken while job 2 of user 2 waits: by a worker that
    was parked in [wait()] when the two were enqueued. *)
Lemma get_is_seen_by_the_queries_witness :
  let db := add_to_queue 2 101 9 "fr"
              (add_to_queue 1 100 9 "en-US" (initialize empty_table empty_table)) in
  let j := Job.mk 1 1 100 9 "en-US" in
  table_wf (queue db) /\
  get_loop 3 Suspended db = (Returned j, snd (get_loop 3 Suspended db)) /\
  get_queue_size (snd (get_loop 3 Suspended db)) = 1 /\
  user_in_queue 2 (snd (get_loop 3 Suspended db)) = true /\
  task_available (snd (get_loop 3 Suspended db)) = false.
Proof.
  intros db j.
  assert (Hwf : table_wf (queue db)) by (unfold table_wf; simpl; repeat constructor; lia).
  assert (Hget : get_loop 3 Suspended db = (Returned j, snd (get_loop 3 Suspended db)))
    by reflexivity.
  split; [exact Hwf|]. split; [exact Hget|].
  destruct (get_is_seen_by_the_queries 3 Suspended db (snd (get_loop 3 Suspended db))
              j 2 101 Hwf I Hget)
    as (_ & Hsize & _ & Huser & _ & _ & _ & Hev).
  split; [|split].
  - rewrite Hsize. reflexivity.
  - rewrite Huser; [reflexivity|discriminate].
  - exact (proj2 (Hev (or_intror eq_refl))).
Defined.

(** * Further properties of the result cache *)

Lemma select_one_where_app {R : Type} (p : R -> bool) (l : list R) (x : R) (s : Z) (s' : Z) :
  select_one_where p (mkTable (l ++ [x]) s')
  = match select_one_where p (mkTable l s) with
    | Some r => Some r
    | None => if p x then Some x else None
    end.
Proof.
  unfold select_one_where; simpl. rewrite filter_app.
  destruct (filter p l); simpl; [|reflexivity].
  destruct (p x); reflexivity.
Qed.

Lemma lookup_after_add_transcription
    (m c : Z) (text : string) (now : Z) (db : Database) (m0 c0 : Z) :
  get_transcription m0 c0 (snd (add_transcription m c text now db))
  = match get_transcription m0 c0 db with
    | Some r => Some r
    | None =>
        if (m =? m0) && (c =? c0)
        then Some (Transcription.mk (next_rowid (transcriptions db)) m c text now)
        else None
    end.
Proof.
  unfold get_transcription, add_transcription, insert.
  cbn [fst snd transcriptions with_transcriptions].
  rewrite (select_one_where_app _ _ _ (seq (transcriptions db))). simpl.
  destruct (transcriptions db); reflexivity.
Qed.

(** X7. Store, then look up.  On a miss for the pair the lookup after
    [add_transcription] returns the new row, with the id and the timestamp
    that [add_transcription] returned; on a hit the older row is still the
    one returned; lookups of other pairs and the queue are not affected. *)
Theorem add_transcription_then_get_transcription
    (m c : Z) (text : string) (now : Z) (db : Database) (m' c' : Z) :
  let stored := fst (add_transcription m c text now db) in
  let db' := snd (add_transcription m c text now db) in
  snd stored = now /\
  (forall r, In r (rows (transcriptions db)) -> Transcription.id r < fst stored) /\
  (get_transcription m c db = None ->
   get_transcription m c db' = Some (Transcription.mk (fst stored) m c text now)) /\
  (forall r, get_transcription m c db = Some r -> get_transcription m c db' = Some r) /\
  (m' <> m \/ c' <> c -> get_transcription m' c' db' = get_transcription m' c' db) /\
  queue db' = queue db /\ task_available db' = task_available db.
Proof.
  intros stored db'.
  pose proof (lookup_after_add_transcription m c text now db) as Hlookup.
  fold db' in Hlookup.
  change (next_rowid (transcriptions db)) with (fst stored) in Hlookup.
  split; [reflexivity|]. split; [|split; [|split; [|split; [|split; reflexivity]]]].
  - intros r Hr. exact (next_rowid_fresh (transcriptions db) r Hr).
  - intros Hmiss. rewrite Hlookup, Hmiss, !Z.eqb_refl. reflexivity.
  - intros r Hhit. now rewrite Hlookup, Hhit.
  - intros Hne. rewrite Hlookup.
    destruct (get_transcription m' c' db); [reflexivity|].
    destruct (Z.eqb_spec m m'), (Z.eqb_spec c c'); simpl; try reflexivity.
    destruct Hne; congruence.
Qed.

(** The cache is empty, "hello" is stored for message 100 of channel 9. *)
Lemma add_transcription_then_get_transcription_witness :
  let db := initialize empty_table empty_table in
  get_transcription 100 9 db = None /\
  get_transcription 100 9 (snd (add_transcription 100 9 "hello" 1000 db))
  = Some (Transcription.mk 1 100 9 "hello" 1000).
Proof.
  intros db.
  assert (Hmiss : get_transcription 100 9 db = None) by reflexivity.
  split; [exact Hmiss|].
  exact (proj1 (proj2 (proj2 (add_transcription_then_get_transcription
                                100 9 "hello" 1000 db 0 0))) Hmiss).
Defined.

Lemma filter_filter_cutoff (l : list Transcription.t) (a b : Z) :
  filter (fun r => negb (Transcription.created_at r <? b))
         (filter (fun r => negb (Transcription.created_at r <? a)) l)
  = filter (fun r => negb (Transcription.created_at r <? Z.max a b)) l.
Proof.
  induction l as [|x l IH]; simpl; [reflexivity|].
  destruct (Z.ltb_spec (Transcription.created_at x) a);
    destruct (Z.ltb_spec (Transcription.created_at x) (Z.max a b)); simpl; try lia.
  - exact IH.
  - destruct (Z.ltb_spec (Transcription.created_at x) b); simpl; [exact IH|lia].
  - destruct (Z.ltb_spec (Transcription.created_at x) b); simpl; [lia|now rewrite IH].
Qed.

(** X8. Two sweeps with the same retention are one sweep at the later of
    the two clock readings: sweeping again at the same or an earlier time
    deletes nothing more, and the order of two sweeps does not matter. *)
Theorem delete_outdated_twice_is_once_at_the_later_time (now1 now2 days : Z) (db : Database) :
  delete_outdated now2 days (delete_outdated now1 days db)
  = delete_outdated (Z.max now1 now2) days db /\
  delete_outdated now1 days (delete_outdated now1 days db) = delete_outdated now1 days db /\
  delete_outdated now2 days (delete_outdated now1 days db)
  = delete_outdated now1 days (delete_outdated now2 days db).
Proof.
  assert (Hmax : forall a b,
            delete_outdated b days (delete_outdated a days db)
            = delete_outdated (Z.max a b) days db).
  { intros a b. unfold delete_outdated, delete_where, with_transcriptions.
    cbn [queue transcriptions task_available rows seq]. do 2 f_equal.
    rewrite filter_filter_cutoff. f_equal.
    replace (Z.max (a - days * 86400) (b - days * 86400))
      with (Z.max a b - days * 86400) by lia.
    reflexivity. }
  split; [apply Hmax|]. split.
  - rewrite Hmax. now rewrite Z.max_id.
  - rewrite !Hmax. now rewrite Z.max_comm.
Qed.

(** X9. The sweep and the lookup: after [Bot.delete_outdated] the lookup of
    a message misses exactly when every stored result of that message and
    channel is older than seven days; a result it returns is one of the
    stored results of the pair, at most seven days old. *)
Theorem lookup_after_the_sweep (now : Z) (b : Bot) (message : Discord.Message) :
  (cached message (bot_delete_outdated now b) = None <->
   forall r, In r (rows (transcriptions (database b))) ->
             same_source (Discord.id message) (Discord.channel_id message) r = true ->
             Transcription.created_at r < now - 7 * 86400) /\
  (forall r, cached message (bot_delete_outdated now b) = Some r ->
             In r (rows (transcriptions (database b))) /\
             same_source (Discord.id message) (Discord.channel_id message) r = true /\
             now - 7 * 86400 <= Transcription.created_at r).
Proof.
  unfold cached, get_transcription, bot_delete_outdated, delete_outdated,
    delete_outdated_default_days.
  cbn [database with_database with_transcriptions transcriptions].
  split.
  - rewrite select_one_where_none. unfold delete_where; cbn [rows]. split.
    + intros Hall r Hr Hsame. specialize (Hall r).
      destruct (Z.ltb_spec (Transcription.created_at r) (now - 7 * 86400)) as [|Hge];
        [assumption|].
      rewrite filter_In in Hall.
      assert (Hf : same_source (Discord.id message) (Discord.channel_id message) r = false).
      { apply Hall. split; [exact Hr|].
        apply negb_true_iff, Z.ltb_ge. exact Hge. }
      unfold same_source in *. congruence.
    + intros Hall r Hr. apply filter_In in Hr. destruct Hr as [Hr Hkeep].
      apply negb_true_iff, Z.ltb_ge in Hkeep.
      destruct ((Transcription.message_id r =? Discord.id message)
                && (Transcription.channel_id r =? Discord.channel_id message)) eqn:E;
        [|reflexivity].
      specialize (Hall r Hr E). lia.
  - intros r Hsel. unfold select_one_where, delete_where in Hsel; cbn [rows] in Hsel.
    destruct (filter _ (filter _ _)) as [|x l] eqn:E; [discriminate|].
    injection Hsel as ->.
    assert (Hin : In r (r :: l)) by now left.
    rewrite <- E in Hin. apply filter_In in Hin. destruct Hin as [Hin Hsame].
    apply filter_In in Hin. destruct Hin as [Hin Hkeep].
    apply negb_true_iff, Z.ltb_ge in Hkeep. auto.
Qed.

(** The one result of message 100 is eight days old. *)
Lemma lookup_after_the_sweep_witness :
  let now := 1000000 in
  let b := on_start Sample.nobody empty_table
             (mkTable [Transcription.mk 1 100 9 "hello" (now - 8 * 86400)] 1) in
  cached Sample.voice_100 b <> None /\
  cached Sample.voice_100 (bot_delete_outdated now b) = None.
Proof.
  intros now b. split; [discriminate|].
  apply (proj1 (lookup_after_the_sweep now b Sample.voice_100)).
  intros r [<-|[]] _. simpl. lia.
Defined.

(** User 1 is enqueued on an empty queue: user 1 is reported as queued,
    and the answer for user 5 is what it was. *)
Lemma add_to_queue_is_seen_by_the_queries_witness :
  let db := initialize empty_table empty_table in
  user_in_queue 1 (add_to_queue 1 100 9 "en-US" db) = true /\
  user_in_queue 5 (add_to_queue 1 100 9 "en-US" db) = user_in_queue 5 db.
Proof.
  intros db.
  destruct (add_to_queue_is_seen_by_the_queries 1 100 9 "en-US" db 5 0)
    as (Hu & _ & _ & _ & Hother & _).
  split; [exact Hu|]. apply Hother. discriminate.
Defined.

(** * Further properties of the command handler *)

Lemma locale_of_not_empty (ctx : Discord.Context) : locale_of ctx <> ""%string.
Proof.
  unfold locale_of, Py.or_optstr.
  destruct (Discord.locale ctx) as [[|a s]|], (Discord.guild_locale ctx) as [[|a' s']|];
    simpl; discriminate.
Qed.

(** X10. What the handler does to the bot: it never touches the cache, and
    it leaves the bot as it was unless it answers with the queue notice; then
    the queue has one more row, the last one, with a fresh id, the invoking
    user, the message, its channel and a locale that is not empty, the event
    is set and the counter is one higher. *)
Theorem transcribe_enqueues_at_most_one_job
    (ctx : Discord.Context) (message : Discord.Message) (b : Bot) :
  let b' := snd (run (transcribe ctx message) b) in
  transcriptions (database b') = transcriptions (database b) /\
  is_owner b' = is_owner b /\
  (b' = b \/
   (fst (run (transcribe ctx message) b) = Responded (queue_notice b) false /\
    rows (queue (database b'))
    = rows (queue (database b))
      ++ [Job.mk (next_rowid (queue (database b))) (Discord.author_id ctx)
                 (Discord.id message) (Discord.channel_id message) (locale_of ctx)] /\
    (forall j, In j (rows (queue (database b))) ->
               Job.id j < next_rowid (queue (database b))) /\
    locale_of ctx <> ""%string /\
    task_available (database b') = true /\
    queue_size b' = queue_size b + 1)).
Proof.
  intros b'. unfold b'. rewrite run_transcribe.
  destruct (negb (voice_note_ok message)); [simpl; auto|].
  destruct (submitter_queued ctx b); [simpl; auto|].
  destruct (source_queued message b); [simpl; auto|].
  destruct (Discord.attachments message) as [|a ?]; [simpl; auto|].
  destruct (Discord.duration_secs a) as [d|]; [|simpl; auto].
  destruct (longer_than_60 d); [simpl; auto|].
  destruct (cached message b); [simpl; auto|].
  cbn [fst snd]. split; [reflexivity|]. split; [reflexivity|]. right.
  split; [reflexivity|]. split; [reflexivity|].
  split; [intros j Hj; exact (next_rowid_fresh (queue (database b)) j Hj)|].
  split; [apply locale_of_not_empty|]. split; reflexivity.
Qed.

(** X11. The cooldown: [reset_cooldown] is called exactly when the handler
    answers with an error embed, and then the bot is as it was; it is not
    called when a cached result is served, when the job is enqueued, or when
    an exception escapes. *)
Theorem transcribe_resets_the_cooldown_exactly_on_rejection
    (ctx : Discord.Context) (message : Discord.Message) (b : Bot) :
  match fst (run (transcribe ctx message) b) with
  | Responded (ErrorEmbed _) reset =>
      reset = true /\ snd (run (transcribe ctx message) b) = b
  | Responded _ reset => reset = false
  | Raised _ => snd (run (transcribe ctx message) b) = b
  end.
Proof.
  rewrite run_transcribe.
  destruct (negb (voice_note_ok message)); [simpl; auto|].
  destruct (submitter_queued ctx b); [simpl; auto|].
  destruct (source_queued message b); [simpl; auto|].
  destruct (Discord.attachments message) as [|a ?]; [simpl; auto|].
  destruct (Discord.duration_secs a) as [d|]; [|simpl; auto].
  destruct (longer_than_60 d); [simpl; auto|].
  destruct (cached message b); [simpl; auto|].
  unfold queue_notice. destruct (task_available (database b)); reflexivity.
Qed.

Lemma longer_than_60_spec (d : Q) : longer_than_60 d = true <-> (60 # 1 < d)%Q.
Proof.
  unfold longer_than_60. rewrite negb_true_iff. split.
  - intros Hle. apply Qnot_le_lt. intros H. apply Qle_bool_iff in H. congruence.
  - intros Hlt. destruct (Qle_bool d (60 # 1)) eqn:E; [|reflexivity].
    apply Qle_bool_iff in E. exfalso. exact (Qlt_not_le _ _ Hlt E).
Qed.

(** X12. The ceiling: the handler answers "too long" exactly when the
    message passes the voice-note test, neither duplicate check applies and
    the first attachment lasts more than 60 seconds; a message of exactly 60
    seconds is not too long. *)
Theorem transcribe_answers_too_long_exactly_above_60_seconds
    (ctx : Discord.Context) (message : Discord.Message) (b : Bot) :
  fst (run (transcribe ctx message) b)
  = Responded (make_error_embed "transcribe.too-long") true <->
  voice_note_ok message = true /\
  submitter_queued ctx b = false /\
  source_queued message b = false /\
  exists d, first_duration message = Some d /\ (60 # 1 < d)%Q.
Proof.
  rewrite run_transcribe. unfold first_duration.
  destruct (voice_note_ok message); simpl;
    [|split; [discriminate|intros [H _]; discriminate H]].
  destruct (submitter_queued ctx b);
    [split; [discriminate|intros (_ & H & _); discriminate H]|].
  destruct (source_queued message b);
    [split; [discriminate|intros (_ & _ & H & _); discriminate H]|].
  destruct (Discord.attachments message) as [|a ?];
    [split; [discriminate|intros (_ & _ & _ & d & H & _); discriminate H]|].
  destruct (Discord.duration_secs a) as [d|];
    [|split; [discriminate|intros (_ & _ & _ & d & H & _); discriminate H]].
  destruct (longer_than_60 d) eqn:Hlong.
  - split; [|reflexivity]. intros _. repeat split.
    exists d. split; [reflexivity|]. now apply longer_than_60_spec.
  - split.
    + unfold queue_notice.
      destruct (cached message b); [discriminate|].
      destruct (task_available (database b)); discriminate.
    + intros (_ & _ & _ & d' & [= <-] & Hlt).
      apply longer_than_60_spec in Hlt. congruence.
Qed.

(** A voice message of exactly 60 seconds on a fresh bot is accepted. *)
Lemma transcribe_answers_too_long_witness :
  let message := Discord.mkMessage 300 9 [Discord.mkAttachment (Some (60 # 1))] (2 ^ 13) in
  fst (run (transcribe Sample.user_1 message) Sample.fresh)
  <> Responded (make_error_embed "transcribe.too-long") true /\
  fst (run (transcribe Sample.user_1 Sample.long_200) Sample.fresh)
  = Responded (make_error_embed "transcribe.too-long") true.
Proof.
  intros message. split.
  - intros H.
    apply (proj1 (transcribe_answers_too_long_exactly_above_60_seconds
                    Sample.user_1 message Sample.fresh)) in H.
    destruct H as (_ & _ & _ & d & [= <-] & Hlt).
    vm_compute in Hlt. discriminate Hlt.
  - apply (proj2 (transcribe_answers_too_long_exactly_above_60_seconds
                    Sample.user_1 Sample.long_200 Sample.fresh)).
    repeat split. exists (61 # 1). split; reflexivity.
Defined.

(** X13. Exceptions of the handler.  [attachments[0]] is only reached after
    the voice-note test, so no [IndexError] escapes.  A message that passes
    the test with a first attachment that has no duration makes the
    comparison with 60 raise [TypeError], after the duplicate checks and
    before the cache is consulted; nothing is enqueued. *)
Theorem transcribe_raises_only_for_a_missing_duration
    (ctx : Discord.Context) (message : Discord.Message) (b : Bot) :
  fst (run (transcribe ctx message) b) <> Raised "IndexError" /\
  (forall exn, fst (run (transcribe ctx message) b) = Raised exn <->
     exn = "TypeError"%string /\
     voice_note_ok message = true /\
     submitter_queued ctx b = false /\
     source_queued message b = false /\
     first_duration message = None) /\
  (first_duration message = None -> snd (run (transcribe ctx message) b) = b).
Proof.
  rewrite run_transcribe. unfold first_duration, voice_note_ok, has_voice_note, py_and.
  destruct (Discord.attachments message) as [|a l] eqn:Hatt; simpl.
  - split; [discriminate|]. split; [|reflexivity].
    intros exn. split; [discriminate|]. intros (_ & H & _). discriminate H.
  - destruct (Py.bool_of_int (Z.shiftr (Discord.flags_value message) 13)); simpl.
    + destruct (submitter_queued ctx b).
      { split; [discriminate|]. split; [|reflexivity].
        intros exn. split; [discriminate|]. intros (_ & _ & H & _). discriminate H. }
      destruct (source_queued message b).
      { split; [discriminate|]. split; [|reflexivity].
        intros exn. split; [discriminate|]. intros (_ & _ & _ & H & _). discriminate H. }
      destruct (Discord.duration_secs a) as [d|].
      * assert (Hnot : forall exn,
                  fst (if longer_than_60 d
                       then (Responded (make_error_embed "transcribe.too-long") true, b)
                       else match cached message b with
                            | Some r =>
                                (Responded
                                   (make_transcribed_embed message (Transcription.text r)
                                      (Transcription.id r) (Transcription.created_at r))
                                   false, b)
                            | None => (Responded (queue_notice b) false,
                                       enqueued ctx message b)
                            end) <> Raised exn).
        { intros exn. destruct (longer_than_60 d); [discriminate|].
          destruct (cached message b); discriminate. }
        split; [apply Hnot|]. split; [|discriminate].
        intros exn. split; [intros H; now apply Hnot in H|].
        intros (_ & _ & _ & _ & H). discriminate H.
      * split; [discriminate|]. split; [|reflexivity].
        intros exn. split; [intros [= <-]; auto|]. intros (-> & _). reflexivity.
    + split; [discriminate|]. split; [|reflexivity].
      intros exn. split; [discriminate|]. intros (_ & H & _). discriminate H.
Qed.

(** A file without a duration on a message whose flags have bit 14 set. *)
Lemma transcribe_raises_only_for_a_missing_duration_witness :
  let message := Discord.mkMessage 400 9 [Discord.mkAttachment None] (2 ^ 14) in
  first_duration message = None /\
  fst (run (transcribe Sample.user_1 message) Sample.fresh) = Raised "TypeError" /\
  snd (run (transcribe Sample.user_1 message) Sample.fresh) = Sample.fresh.
Proof.
  intros message.
  assert (Hd : first_duration message = None) by reflexivity.
  destruct (transcribe_raises_only_for_a_missing_duration
              Sample.user_1 message Sample.fresh) as (_ & Hiff & Hsame).
  split; [exact Hd|]. split; [|exact (Hsame Hd)].
  apply Hiff. repeat split.
Defined.

(** * Further properties of the worker *)

(** X14. From the worker to the next submitter.  When the job's source is
    still there and the pipeline hears a text, the iteration stores one
    result with a fresh id and leaves the queue and the counter alone,
    whether or not the reply can be sent.  A reply that is sent goes to the
    fetched message, mentions the job's submitter and carries the text (the
    "no transcription" description for an empty text), the id of the stored
    result and its timestamp; a reply that fails leaves the loop with the
    result stored.  If the cache had no result for the pair, a later
    submission of the same message that reaches the cache lookup is answered
    with that same text, id and timestamp and changes nothing. *)
Theorem processed_job_is_served_from_the_cache
    (env : Env) (j : Job.t) (b : Bot) (channel : Z)
    (fetched : Discord.Message) (a : Discord.Attachment) (rest : list Discord.Attachment)
    (text : string) :
  get_or_fetch_channel env (Job.channel_id j) = Some channel ->
  fetch_message env channel (Job.message_id j) = Fetched fetched ->
  Discord.attachments fetched = a :: rest ->
  transcribe_audiobytes env a = Text text ->
  let uid := next_rowid (transcriptions (database b)) in
  let b1 := snd (run (process_queue_iteration env j) b) in
  exists body,
    (text <> ""%string -> body = Some text) /\
    (text = ""%string -> body = None) /\
    (reply env fetched = Delivered ->
     fst (run (process_queue_iteration env j) b)
     = Continue (Some (mkReply (Discord.id fetched) (Job.user_id j)
                         (TranscribedEmbed (Discord.id fetched) body uid (clock env))))) /\
    (forall exn, reply env fetched = ReplyFailed exn ->
     fst (run (process_queue_iteration env j) b) = Escaped exn) /\
    rows (transcriptions (database b1))
    = rows (transcriptions (database b))
      ++ [Transcription.mk uid (Job.message_id j) (Job.channel_id j) text (clock env)] /\
    (forall r, In r (rows (transcriptions (database b))) -> Transcription.id r < uid) /\
    queue (database b1) = queue (database b) /\
    queue_size b1 = queue_size b /\
    (no_result_for j b ->
     forall ctx message d,
       Discord.id message = Job.message_id j ->
       Discord.channel_id message = Job.channel_id j ->
       voice_note_ok message = true ->
       submitter_queued ctx b1 = false ->
       source_queued message b1 = false ->
       first_duration message = Some d -> longer_than_60 d = false ->
       run (transcribe ctx message) b1
       = (Responded (TranscribedEmbed (Discord.id message) body uid (clock env)) false, b1)).
Proof.
  intros Hch Hmsg Hatt Htext uid b1.
  assert (Hrun : run (process_queue_iteration env j) b
                 = (match reply env fetched with
                    | Delivered =>
                        Continue (Some (mkReply (Discord.id fetched) (Job.user_id j)
                                          (make_transcribed_embed fetched text uid
                                             (clock env))))
                    | ReplyFailed exn => Escaped exn
                    end,
                    with_database
                      (snd (add_transcription (Job.message_id j) (Job.channel_id j) text
                                              (clock env) (database b))) b)).
  { unfold process_queue_iteration. rewrite Hch, Hmsg, Hatt, Htext.
    simpl. destruct (reply env fetched); reflexivity. }
  unfold b1. rewrite Hrun. cbn [fst snd].
  exists (match text with EmptyString => None | _ => Some text end).
  split; [destruct text; [intros H; now contradiction H|reflexivity]|].
  split; [intros ->; reflexivity|].
  split; [intros ->; reflexivity|].
  split; [intros exn ->; reflexivity|].
  split; [reflexivity|].
  split; [intros r Hr; exact (next_rowid_fresh (transcriptions (database b)) r Hr)|].
  split; [reflexivity|]. split; [reflexivity|].
  intros Hnone ctx message d Hid Hc Hv Hs Hq Hd Hlong.
  assert (Hcached : cached message
                      (with_database
                         (snd (add_transcription (Job.message_id j) (Job.channel_id j) text
                                                 (clock env) (database b))) b)
                    = Some (Transcription.mk uid (Job.message_id j) (Job.channel_id j)
                                             text (clock env))).
  { unfold cached. cbn [database with_database]. rewrite Hid, Hc.
    rewrite lookup_after_add_transcription.
    unfold no_result_for in Hnone. rewrite Hnone, !Z.eqb_refl. reflexivity. }
  handler_branch.
Qed.

(** The worker transcribes message 100 for user 1 and replies; user 2 asks
    afterwards and gets the same text, id and timestamp. *)
Lemma processed_job_is_served_from_the_cache_witness :
  let j := Job.mk 1 1 100 9 "en-US" in
  let b := bot Run.transcribing in
  let b1 := snd (run (process_queue_iteration Run.hello j) b) in
  no_result_for j b /\
  fst (run (process_queue_iteration Run.hello j) b)
  = Continue (Some (mkReply 100 1 (TranscribedEmbed 100 (Some "hello"%string) 1 1000))) /\
  run (transcribe Sample.user_2 Sample.voice_100) b1
  = (Responded (TranscribedEmbed 100 (Some "hello"%string) 1 1000) false, b1).
Proof.
  intros j b b1.
  assert (Hnone : no_result_for j b) by reflexivity.
  split; [exact Hnone|].
  destruct (processed_job_is_served_from_the_cache
              Run.hello j b 9 Sample.voice_100 (Discord.mkAttachment (Some (5 # 1))) []
              "hello" eq_refl eq_refl eq_refl eq_refl)
    as (body & Hsome & _ & Hsent & _ & _ & _ & _ & _ & Hserved).
  pose proof (Hsome ltac:(discriminate)) as Hbody. subst body.
  split; [exact (Hsent eq_refl)|].
  exact (Hserved Hnone Sample.user_2 Sample.voice_100 (5 # 1)
           eq_refl eq_refl eq_refl eq_refl eq_refl eq_refl eq_refl).
Defined.

(** X15. An exception that is not caught ends the worker.  The iteration
    raises exactly when the fetch fails with something other than
    [NotFound], the fetched message has no attachment, the pipeline raises,
    or the reply fails.  In the first three cases nothing has been stored;
    when the reply fails the result is already in the cache, with a fresh id.
    Either way the [while True] loop is left: from then on, whatever handlers
    and sweeps run, the worker stays stopped and every queued job stays in
    the queue, until the bot is started again. *)
Theorem an_escaped_exception_stops_the_worker
    (admissible : World -> Discord.Message -> Prop)
    (w : World) (env : Env) (j : Job.t) (exn : string) :
  worker w = Processing j ->
  let it := fst (run (process_queue_iteration env j) (bot w)) in
  let b' := snd (run (process_queue_iteration env j) (bot w)) in
  (it = Escaped exn <->
   fails_before_store env j exn \/ exists text, fails_at_reply env j text exn) /\
  (fails_before_store env j exn -> b' = bot w) /\
  (forall text, fails_at_reply env j text exn ->
     rows (transcriptions (database b'))
     = rows (transcriptions (database (bot w)))
       ++ [Transcription.mk (next_rowid (transcriptions (database (bot w))))
             (Job.message_id j) (Job.channel_id j) text (clock env)] /\
     queue (database b') = queue (database (bot w)) /\
     queue_size b' = queue_size (bot w)) /\
  (it = Escaped exn -> step admissible w (mkWorld b' Stopped)) /\
  (forall w1 w2, worker w1 = Stopped -> step admissible w1 w2 ->
     (worker w2 = Stopped /\
      forall j', In j' (rows (queue (database (bot w1)))) ->
                 In j' (rows (queue (database (bot w2))))) \/
     w2 = mkWorld (on_start (is_owner (bot w1)) (queue (database (bot w1)))
                            (transcriptions (database (bot w1))))
                  (Getting AtSelect)).
Proof.
  intros Hw it b'.
  assert (Hreply : forall text,
            fails_at_reply env j text exn ->
            run (process_queue_iteration env j) (bot w)
            = (Escaped exn,
               with_database
                 (snd (add_transcription (Job.message_id j) (Job.channel_id j) text
                                         (clock env) (database (bot w)))) (bot w))).
  { intros text (channel & message & a & rest & Hch & Hmsg & Hatt & Htext & Hfail).
    unfold process_queue_iteration. rewrite Hch, Hmsg, Hatt, Htext.
    simpl. now rewrite Hfail. }
  split; [|split; [|split; [|split]]].
  - unfold it. split.
    + unfold process_queue_iteration.
      destruct (get_or_fetch_channel env (Job.channel_id j)) as [channel|] eqn:Hch;
        [|discriminate].
      destruct (fetch_message env channel (Job.message_id j)) as [message| |e] eqn:Hmsg;
        [|discriminate|].
      * destruct (Discord.attachments message) as [|a rest] eqn:Hatt.
        -- intros [= <-]. left. exists channel. split; [exact Hch|]. right.
           exists message. split; [exact Hmsg|]. left. now split.
        -- destruct (transcribe_audiobytes env a) as [text|e] eqn:Htext.
           ++ simpl. destruct (reply env message) as [|e] eqn:Hsent; [discriminate|].
              intros [= <-]. right. exists text, channel, message, a, rest. auto.
           ++ intros [= <-]. left. exists channel. split; [exact Hch|]. right.
              exists message. split; [exact Hmsg|]. right. exists a, rest. now split.
      * intros [= <-]. left. exists channel. split; [exact Hch|]. now left.
    + intros [(channel & Hch & [Hf|(message & Hmsg & [[Hatt ->]|(a & rest & Hatt & Hp)])])
             |(text & Hfail)].
      * unfold process_queue_iteration. now rewrite Hch, Hf.
      * unfold process_queue_iteration. now rewrite Hch, Hmsg, Hatt.
      * unfold process_queue_iteration. now rewrite Hch, Hmsg, Hatt, Hp.
      * now rewrite (Hreply text Hfail).
  - unfold b'.
    intros (channel & Hch & [Hf|(message & Hmsg & [[Hatt _]|(a & rest & Hatt & Hp)])]);
      unfold process_queue_iteration.
    + now rewrite Hch, Hf.
    + now rewrite Hch, Hmsg, Hatt.
    + now rewrite Hch, Hmsg, Hatt, Hp.
  - intros text Hfail. unfold b'. rewrite (Hreply text Hfail). repeat split.
  - intros Hesc.
    pose proof (@step_finish admissible w env j Hw) as Hstep.
    fold it in Hstep. fold b' in Hstep. rewrite Hesc in Hstep. exact Hstep.
  - intros w1 w2 Hstopped Hstep.
    destruct Hstep as [ctx message _|pc pc' db' Hpc _|j0 Hpc|env0 j0 Hpc|now|];
      try (rewrite Hstopped in Hpc; discriminate Hpc).
    + left. cbn [bot worker]. split; [exact Hstopped|].
      destruct (snd_run_transcribe ctx message (bot w1)) as [->|(_ & _ & _ & ->)];
        [auto|].
      intros j' Hj'. unfold enqueued, add_to_queue.
      cbn [database with_queue_size with_database].
      change (queue (set_event ?x)) with (queue x).
      rewrite insert_job_rows. apply in_or_app. now left.
    + left. cbn [bot worker]. split; [exact Hstopped|]. auto.
    + right. reflexivity.
Qed.

(** The worker has transcribed message 100 and may not reply in the channel:
    the result is stored, nobody is told, and the loop is left. *)
Lemma an_escaped_exception_stops_the_worker_witness :
  let env := mkEnv (fun c => Some c) (fun _ _ => Fetched Sample.voice_100)
                   (fun _ => Text "hello") 1000 (fun _ => ReplyFailed "Forbidden") in
  let j := Job.mk 1 1 100 9 "en-US" in
  worker Run.transcribing = Processing j /\
  fails_at_reply env j "hello" "Forbidden" /\
  fst (run (process_queue_iteration env j) (bot Run.transcribing)) = Escaped "Forbidden" /\
  rows (transcriptions
          (database (snd (run (process_queue_iteration env j) (bot Run.transcribing)))))
  = [Transcription.mk 1 100 9 "hello" 1000].
Proof.
  intros env j.
  assert (Hw : worker Run.transcribing = Processing j) by reflexivity.
  assert (Hfail : fails_at_reply env j "hello" "Forbidden").
  { exists 9, Sample.voice_100, (Discord.mkAttachment (Some (5 # 1))), [].
    repeat split. }
  destruct (an_escaped_exception_stops_the_worker
              any_submission Run.transcribing env j "Forbidden" Hw)
    as (Hiff & _ & Hstored & _).
  split; [exact Hw|]. split; [exact Hfail|]. split.
  - apply Hiff. right. now exists "hello"%string.
  - exact (proj1 (Hstored "hello"%string Hfail)).
Defined.

(** X16. Who changes which table.  A step of the bot changes the rows of at
    most one table: a handler appends one job; the worker's [get()] removes
    the rows with the id of the job it selected; the worker's iteration
    appends one result for the message and channel of its job; the sweep
    removes the results older than seven days.  A restart changes neither. *)
Theorem each_step_changes_one_table_in_one_way
    (admissible : World -> Discord.Message -> Prop) (w w' : World) :
  step admissible w w' ->
  let q := rows (queue (database (bot w))) in
  let q' := rows (queue (database (bot w'))) in
  let t := rows (transcriptions (database (bot w))) in
  let t' := rows (transcriptions (database (bot w'))) in
  (q' = q /\ t' = t) \/
  (t' = t /\ exists j, q' = q ++ [j]) \/
  (t' = t /\
   exists j, worker w = Getting (AtDelete j) /\
             q' = filter (fun r => negb (Job.id r =? Job.id j)) q) \/
  (q' = q /\
   exists j r, worker w = Processing j /\ t' = t ++ [r] /\
               Transcription.message_id r = Job.message_id j /\
               Transcription.channel_id r = Job.channel_id j) \/
  (q' = q /\
   exists now, t' = filter (fun r => negb (Transcription.created_at r <? now - 7 * 86400)) t).
Proof.
  intros Hstep q q' t t'. unfold q, q', t, t'. clear q q' t t'.
  destruct Hstep as [ctx message _|pc pc' db' Hpc Hget|j Hpc|env j Hpc|now|];
    cbn [bot worker].
  - destruct (snd_run_transcribe ctx message (bot w)) as [->|(_ & _ & _ & ->)];
      [now left|].
    right. left. split; [reflexivity|].
    eexists. unfold enqueued, add_to_queue.
    cbn [database with_queue_size with_database].
    change (queue (set_event ?x)) with (queue x).
    now rewrite insert_job_rows.
  - destruct (get_step_cases pc pc' (database (bot w)) db' Hget)
      as [(-> & -> & _)|[(j & -> & -> & ->)|(_ & _ & Hq & Ht)]].
    + now left.
    + right. right. left. split; [reflexivity|]. exists j. split; [exact Hpc|reflexivity].
    + left. cbn [database with_database]. now rewrite Hq, Ht.
  - now left.
  - destruct (snd_run_process_queue_iteration env j (bot w)) as [->|[text ->]];
      [now left|].
    right. right. right. left. split; [reflexivity|].
    exists j. eexists. split; [exact Hpc|]. split; [reflexivity|]. split; reflexivity.
  - right. right. right. right. split; [reflexivity|]. exists now. reflexivity.
  - now left.
Qed.

(** The step in which the parked worker of the sample run is woken changes
    no table. *)
Lemma each_step_changes_one_table_witness :
  let w := Run.submit Sample.user_1 Sample.voice_100 Run.parked in
  step any_submission w (Run.work Run.hello w) /\
  rows (queue (database (bot (Run.work Run.hello w)))) = rows (queue (database (bot w))).
Proof.
  intros w.
  assert (Hstep : step any_submission w (Run.work Run.hello w)).
  { apply (@step_get any_submission w Suspended AtSelect
             (clear_event (database (bot w)))); reflexivity. }
  split; [exact Hstep|].
  destruct (each_step_changes_one_table_in_one_way any_submission w _ Hstep)
    as [[Hq _]|[[_ [j Hq]]|[[_ (j & Hw & _)]|[[Hq _]|[Hq _]]]]];
    try exact Hq.
  - vm_compute in Hq. discriminate Hq.
  - discriminate Hw.
Defined.

(** * The text of a transcription *)

Section Stripping.
Context {Char : Type} (isspace : Char -> bool).

Lemma lstrip_head (s : list Char) (c : Char) (t : list Char) :
  Transcriber.lstrip isspace s = c :: t -> isspace c = false.
Proof.
  induction s as [|x s IH]; simpl; [discriminate|].
  destruct (isspace x) eqn:E; [exact IH|]. intros [= <- _]. exact E.
Qed.

Lemma lstrip_nil (s : list Char) :
  Transcriber.lstrip isspace s = [] <-> forallb isspace s = true.
Proof.
  induction s as [|x s IH]; simpl; [tauto|].
  destruct (isspace x); simpl; [exact IH|]. split; discriminate.
Qed.

Lemma lstrip_suffix (s : list Char) :
  exists p, s = p ++ Transcriber.lstrip isspace s /\ forallb isspace p = true.
Proof.
  induction s as [|x s (p & Hs & Hp)]; simpl; [now exists []|].
  destruct (isspace x) eqn:E.
  - exists (x :: p). simpl. rewrite E, Hp. split; [now rewrite <- Hs|reflexivity].
  - now exists [].
Qed.

Lemma strip_nil (s : list Char) :
  Transcriber.strip isspace s = [] <-> forallb isspace s = true.
Proof.
  unfold Transcriber.strip, Transcriber.rstrip. split.
  - intros H. apply (f_equal (@rev Char)) in H. rewrite rev_involutive in H. simpl in H.
    apply lstrip_nil in H. rewrite forallb_forall in H.
    destruct (Transcriber.lstrip isspace s) as [|c t] eqn:E; [now apply lstrip_nil|].
    apply lstrip_head in E.
    rewrite (H c) in E; [discriminate|]. apply in_rev. rewrite rev_involutive. now left.
  - intros H. apply lstrip_nil in H. rewrite H. reflexivity.
Qed.

Lemma strip_last (s p : list Char) (c : Char) :
  Transcriber.strip isspace s = p ++ [c] -> isspace c = false.
Proof.
  unfold Transcriber.strip, Transcriber.rstrip. intros H.
  apply (f_equal (@rev Char)) in H. rewrite rev_involutive, rev_app_distr in H.
  simpl in H. now apply lstrip_head in H.
Qed.

Lemma strip_head (s : list Char) (c : Char) (t : list Char) :
  Transcriber.strip isspace s = c :: t -> isspace c = false.
Proof.
  unfold Transcriber.strip, Transcriber.rstrip.
  destruct (Transcriber.lstrip isspace s) as [|c0 u] eqn:E; [discriminate|].
  apply lstrip_head in E.
  destruct (lstrip_suffix (rev (c0 :: u))) as (p & Hs & Hp).
  destruct (Transcriber.lstrip isspace (rev (c0 :: u))) as [|y v] eqn:Ev.
  - rewrite app_nil_r in Hs. rewrite <- Hs in Hp. simpl in Hp.
    rewrite forallb_app in Hp. simpl in Hp. rewrite E in Hp.
    rewrite andb_false_r in Hp. discriminate.
  - destruct (exists_last (l := y :: v)) as (v' & z & Hv); [discriminate|].
    rewrite Hv in *. simpl in Hs. rewrite app_assoc in Hs.
    apply app_inj_tail in Hs. destruct Hs as [_ <-].
    rewrite rev_app_distr. simpl. intros [= <- _]. exact E.
Qed.

(** X17. The text [transcribe_audiobytes] returns is empty exactly when
    every segment consists of white space only (the case the embed reports
    as "no transcription"), and otherwise neither begins nor ends with white
    space; the segments are joined without a separator. *)
Theorem transcribe_audiobytes_is_blank_or_trimmed (seg : list (list Char)) :
  (Transcriber.transcribe_audiobytes isspace seg = [] <->
   Forall (fun s => forallb isspace s = true) seg) /\
  (forall c t, Transcriber.transcribe_audiobytes isspace seg = c :: t ->
               isspace c = false) /\
  (forall p c, Transcriber.transcribe_audiobytes isspace seg = p ++ [c] ->
               isspace c = false) /\
  (forall s, Transcriber.transcribe_audiobytes isspace (s :: seg)
             = Transcriber.strip isspace s ++ Transcriber.transcribe_audiobytes isspace seg).
Proof.
  unfold Transcriber.transcribe_audiobytes. split; [|split; [|split]].
  - induction seg as [|s seg IH]; simpl.
    + split; [constructor|reflexivity].
    + split.
      * intros H. apply app_eq_nil in H. destruct H as [Hs Hrest].
        constructor; [now apply strip_nil|now apply IH].
      * intros H. inversion H as [|? ? Hs Hrest]; subst.
        apply strip_nil in Hs. apply IH in Hrest. now rewrite Hs, Hrest.
  - induction seg as [|s seg IH]; simpl; [discriminate|].
    intros c t. destruct (Transcriber.strip isspace s) as [|c0 t0] eqn:E; simpl.
    + apply IH.
    + intros [= <- _]. now apply strip_head in E.
  - induction seg as [|s seg IH]; simpl; intros p c H.
    + destruct p; discriminate H.
    + destruct (List.concat (map (Transcriber.strip isspace) seg)) as [|y v] eqn:E.
      * rewrite app_nil_r in H. now apply strip_last in H.
      * destruct (exists_last (l := y :: v)) as (v' & z & Hv); [discriminate|].
        rewrite Hv in H. rewrite app_assoc in H.
        apply app_inj_tail in H. destruct H as [_ <-].
        now apply (IH v').
  - reflexivity.
Qed.

End Stripping.

(** Three segments as the model yields them, each with its leading blank:
    the words of neighbouring segments end up next to each other. *)
Lemma transcribe_audiobytes_witness :
  let isspace := fun c : Ascii.ascii => Ascii.eqb c " "%char in
  let seg := map list_ascii_of_string [" Hello"; " world. "; "   "]%string in
  Transcriber.transcribe_audiobytes isspace seg = list_ascii_of_string "Helloworld." /\
  forall c t, Transcriber.transcribe_audiobytes isspace seg = c :: t -> isspace c = false.
Proof.
  intros isspace seg. split; [reflexivity|].
  exact (proj1 (proj2 (transcribe_audiobytes_is_blank_or_trimmed isspace seg))).
Defined.

(** * The presence loop and the ready event *)

(** X18. [update_presence]: from an index that is not negative the new
    index is 0 or 1, so [activities[current_presence]] is always in range;
    from the initial 0 the two activities alternate, the server count being
    shown first. *)
Theorem update_presence_alternates_within_bounds (p : Z) (n : nat) :
  0 <= p ->
  0 <= Presence.update_presence p < Presence.activities /\
  (p < Presence.activities ->
   Presence.update_presence (Presence.update_presence p) = p) /\
  Presence.ticks n 0 = Z.of_nat n mod 2.
Proof.
  intros Hp. unfold Presence.update_presence, Presence.activities.
  split; [|split].
  - destruct (Z.leb_spec 2 (p + 1)); lia.
  - intros Hlt. cbv zeta.
    destruct (Z.leb_spec 2 (p + 1)); destruct (Z.leb_spec 2 (0 + 1));
      try destruct (Z.leb_spec 2 (p + 1 + 1)); lia.
  - induction n as [|n IH]; [reflexivity|].
    cbn [Presence.ticks]. rewrite IH.
    unfold Presence.update_presence, Presence.activities. cbv zeta.
    rewrite Nat2Z.inj_succ.
    pose proof (Z.mod_pos_bound (Z.of_nat n) 2 ltac:(lia)) as Hb.
    destruct (Z.leb_spec 2 (Z.of_nat n mod 2 + 1)).
    + assert (Z.of_nat n mod 2 = 1) by lia.
      rewrite <- Z.add_1_r, <- Zplus_mod_idemp_l. rewrite H0. reflexivity.
    + assert (Z.of_nat n mod 2 = 0) by lia.
      rewrite <- Z.add_1_r, <- Zplus_mod_idemp_l. rewrite H0. reflexivity.
Qed.

(** After three runs of the loop the second activity is shown. *)
Lemma update_presence_witness :
  0 <= 0 /\ Presence.ticks 3 0 = 1.
Proof.
  assert (H0 : 0 <= 0) by lia.
  split; [exact H0|].
  exact (proj2 (proj2 (update_presence_alternates_within_bounds 0 3 H0))).
Defined.

(** X19. Ready events handled one after the other: the first runs
    [on_start] on the persisted tables and creates the one [process_queue]
    coroutine; every later one changes nothing, so the counter and the event
    are not recomputed under a running worker and no second worker loop is
    created. *)
Theorem on_ready_starts_the_bot_once (c : Client) (n : nat) :
  client_ready c = false ->
  ready_events (S n) c = on_ready c /\
  process_queue_tasks (ready_events (S n) c) = S (process_queue_tasks c) /\
  client_bot (ready_events (S n) c)
  = on_start (is_owner (client_bot c)) (queue (database (client_bot c)))
             (transcriptions (database (client_bot c))) /\
  client_ready (ready_events (S n) c) = true.
Proof.
  intros Hc.
  assert (Hrun : ready_events (S n) c = on_ready c).
  { induction n as [|n IH]; [reflexivity|].
    change (ready_events (S (S n)) c) with (on_ready (ready_events (S n) c)).
    rewrite IH. unfold on_ready at 1. unfold on_ready. now rewrite Hc. }
  rewrite Hrun. unfold on_ready. rewrite Hc. repeat split.
Qed.

(** Three ready events on a client that holds one persisted job. *)
Lemma on_ready_starts_the_bot_once_witness :
  let c := mkClient false 0 (mkBot Sample.nobody (database Sample.one_pending) 0) in
  client_ready c = false /\
  process_queue_tasks (ready_events 3 c) = 1%nat /\
  queue_size (client_bot (ready_events 3 c)) = 1.
Proof.
  intros c.
  assert (Hc : client_ready c = false) by reflexivity.
  destruct (on_ready_starts_the_bot_once c 2 Hc) as (_ & Htasks & Hbot & _).
  split; [exact Hc|]. split; [exact Htasks|]. rewrite Hbot. reflexivity.
Defined.

(** * The event next to concurrent enqueues *)

(** The steps of the loop run on its own are steps of the system. *)
Lemma get_loop_async_reachable (n : nat) (pc : GetPc) (db : Database) (k : nat) :
  async_reachable (mkAsync db pc k) ->
  async_reachable (mkAsync (snd (get_loop n pc db)) (fst (get_loop n pc db)) k).
Proof.
  revert pc db. induction n as [|n IH]; intros pc db Hreach; [exact Hreach|].
  cbn [get_loop]. destruct (get_step pc db) as [[pc' db']|] eqn:Hstep; [|exact Hreach].
  apply IH. eapply async_next; [exact Hreach|]. now apply async_get.
Qed.

Lemma committed_not_signalled_reachable : async_reachable committed_not_signalled.
Proof.
  unfold committed_not_signalled.
  eapply async_next;
    [|apply (@async_get (insert_job 1 100 9 "en-US" (initialize empty_table empty_table))
                        AtWait 1 Suspended _); reflexivity].
  eapply async_next; [|apply async_commit].
  eapply async_next;
    [|apply (@async_get (initialize empty_table empty_table) AtSelect 0 AtWait _);
      reflexivity].
  apply async_init.
Qed.

(** X20. No job waits behind a sleeping worker, next to enqueuers whose
    commit and [set()] are separate steps.  In every state that is reached,
    a worker that is about to wait or is parked in [wait()] while the queue
    has rows finds the event set, or a committed enqueue has its [set()]
    still to come.  While the event is clear the worker parks and stays
    parked; once it is set, the next three steps of the worker clear the
    event, select the row with the smallest id, delete the rows with that id
    and return it. *)
Theorem a_waiting_worker_is_woken_for_every_job (s : Async) :
  async_reachable s ->
  wpc s = AtWait \/ wpc s = Suspended ->
  rows (queue (adb s)) <> [] ->
  (task_available (adb s) = true \/ (0 < unsignalled s)%nat) /\
  (task_available (adb s) = false ->
   forall n, (1 <= n)%nat -> get_loop n (wpc s) (adb s) = (Suspended, adb s)) /\
  (task_available (adb s) = true ->
   exists j db',
     get_loop 3 (wpc s) (adb s) = (Returned j, db') /\
     In j (rows (queue (adb s))) /\
     (forall j', In j' (rows (queue (adb s))) -> Job.id j <= Job.id j') /\
     rows (queue db')
     = filter (fun r => negb (Job.id r =? Job.id j)) (rows (queue (adb s))) /\
     task_available db' = false /\
     transcriptions db' = transcriptions (adb s) /\
     async_reachable (mkAsync db' (Returned j) (unsignalled s))).
Proof.
  intros Hreach Hpc Hrows.
  destruct (async_reachable_inv s Hreach) as [Hwait _].
  split; [|split].
  - destruct (Hwait Hpc) as [H|H]; [contradiction|exact H].
  - intros Hev n Hn. destruct n as [|n]; [lia|].
    destruct Hpc as [-> | ->]; cbn [get_loop get_step]; rewrite Hev.
    + now apply get_loop_parked.
    + reflexivity.
  - intros Hev.
    destruct (waiting_worker_dequeues _ _ Hpc Hev Hrows)
      as (j & db' & Hrun & Hin & Hmin & Hrest & _ & Hclear).
    exists j, db'. split; [exact Hrun|]. split; [exact Hin|]. split; [exact Hmin|].
    split; [exact Hrest|]. split; [exact Hclear|].
    destruct s as [db pc k]. cbn [adb wpc unsignalled] in *.
    pose proof (get_loop_async_reachable 3 pc db k Hreach) as Hafter.
    rewrite Hrun in Hafter. cbn [fst snd] in Hafter.
    split; [|exact Hafter].
    destruct Hpc as [-> | ->]; cbn [get_loop get_step] in Hrun; rewrite Hev in Hrun;
      cbn [get_loop get_step clear_event with_task_available queue] in Hrun;
      destruct (select_first_by_id (queue db)); injection Hrun as _ <-; reflexivity.
Qed.

(** An enqueuer has committed job 1 and not yet set the event; the worker
    is parked: the [set()] is still to come, and the worker stays parked
    until then. *)
Lemma a_waiting_worker_is_woken_witness :
  async_reachable committed_not_signalled /\
  wpc committed_not_signalled = Suspended /\
  rows (queue (adb committed_not_signalled)) <> [] /\
  task_available (adb committed_not_signalled) = false /\
  (0 < unsignalled committed_not_signalled)%nat /\
  get_loop 3 (wpc committed_not_signalled) (adb committed_not_signalled)
  = (Suspended, adb committed_not_signalled).
Proof.
  assert (Hpc : wpc committed_not_signalled = AtWait
                \/ wpc committed_not_signalled = Suspended) by (right; reflexivity).
  assert (Hrows : rows (queue (adb committed_not_signalled)) <> []) by discriminate.
  assert (Hev : task_available (adb committed_not_signalled) = false) by reflexivity.
  destruct (a_waiting_worker_is_woken_for_every_job
              committed_not_signalled committed_not_signalled_reachable Hpc Hrows)
    as (Hdue & Hparked & _).
  split; [exact committed_not_signalled_reachable|]. split; [reflexivity|].
  split; [exact Hrows|]. split; [exact Hev|]. split.
  - destruct Hdue as [Hset|Hdue]; [rewrite Hev in Hset; discriminate Hset|exact Hdue].
  - apply (Hparked Hev 3%nat). lia.
Defined.

(** * The job in flight *)

(** X21. The job in flight leaves no trace.  With handlers that run one at
    a time and no submission of a source whose job is in flight, while the
    worker holds a job (after the DELETE of [get()], until the result is
    stored) the message of the job is not reported as queued and has no
    result in the cache; a restart at that moment starts a bot in which the
    job is in neither table. *)
Theorem the_job_in_flight_is_in_neither_table (w : World) (j : Job.t) :
  reachable not_in_flight w ->
  holds (worker w) j ->
  message_in_queue (Job.message_id j) (database (bot w)) = false /\
  get_transcription (Job.message_id j) (Job.channel_id j) (database (bot w)) = None /\
  let restarted := on_start (is_owner (bot w)) (queue (database (bot w)))
                            (transcriptions (database (bot w))) in
  step not_in_flight w (mkWorld restarted (Getting AtSelect)) /\
  message_in_queue (Job.message_id j) (database restarted) = false /\
  get_transcription (Job.message_id j) (Job.channel_id j) (database restarted) = None.
Proof.
  intros Hreach Hholds.
  destruct (reachable_cache_inv w Hreach) as (_ & _ & Hflight).
  destruct (Hflight j Hholds) as [Hnone Hmq].
  split; [exact Hmq|]. split; [exact Hnone|].
  split; [apply step_restart|]. split; [exact Hmq|exact Hnone].
Qed.

(** The worker of the sample run transcribes message 100. *)
Lemma the_job_in_flight_witness :
  let j := Job.mk 1 1 100 9 "en-US" in
  reachable not_in_flight Run.transcribing /\
  holds (worker Run.transcribing) j /\
  message_in_queue 100 (database (bot Run.transcribing)) = false.
Proof.
  intros j.
  assert (Hreach : reachable not_in_flight Run.transcribing).
  { unfold Run.transcribing. apply works_reachable.
    apply (@reachable_step not_in_flight Run.parked _ (parked_reachable _)).
    apply (@step_submit not_in_flight Run.parked Sample.user_1 Sample.voice_100).
    intros j0 Hj0. apply holds_getting in Hj0. discriminate Hj0. }
  assert (Hholds : holds (worker Run.transcribing) j) by (right; reflexivity).
  split; [exact Hreach|]. split; [exact Hholds|].
  exact (proj1 (the_job_in_flight_is_in_neither_table Run.transcribing j Hreach Hholds)).
Defined.
